(** * merge_logs: the two-way streaming merge of [log_merge.py]

    A shallow embedding of [src/log_merge.py] and the properties of its
    merge generator [_get_output_record].

    Conventions of the embedding.
    - A Python call that may raise returns [res A = exn + A].
    - Library code is not part of the repository.  Reading a row of a file
      and [json.loads] on it are represented by their outcome ([Row]): the
      exception raised, or the value returned;
      [datetime.strptime(_, '%Y-%m-%d %H:%M:%S')] is a parameter of the
      development (Section variable [strptime]), and [strptime_Ymd_HMS] below
      is a model of the library's matcher on ASCII text, used to run the
      merge on concrete files.
    - A generator is a value holding its suspended state; [next] returns the
      produced item together with the generator's new state.
    - Line 18 of the source indents the [@property] decorator with a tab;
      the class is read with the decorator at the level of the methods. *)

From Stdlib Require Import ZArith List String Ascii Bool Lia Permutation.
Import ListNotations.

Set Warnings "-register-all".

Local Open Scope string_scope.
Local Open Scope list_scope.
Local Open Scope Z_scope.

(** ** Exceptions and fallible computations *)

Inductive exn : Type :=
| FileNotFoundError   (* raised at line 68 *)
| ValueError          (* raised at line 70, by datetime.strptime, and by
                         json.loads on an integer literal beyond the
                         interpreter's digit limit *)
| JSONDecodeError (msg doc : string) (pos : nat)
                      (* raised by json.loads (a subclass of ValueError):
                         its message, the text json.loads was given and
                         the position of the error in that text *)
| TypeError           (* keyword mismatch in the LogRecord constructor,
                         strptime of a non-string, [None < None] *)
| RuntimeError        (* a StopIteration that escapes a generator body *)
| RecursionError      (* json.loads on text that is nested too deeply *)
| UnicodeDecodeError. (* iterating a file whose bytes are not text *)

(** The line number a [JSONDecodeError] carries: the library sets
    [lineno = doc.count(newline, 0, pos) + 1], a line of the text that
    [json.loads] was given.  No other exception of the program carries one. *)
Fixpoint count_newlines (doc : string) (pos : nat) : nat :=
  match pos, doc with
  | S pos', String c doc' =>
      ((if Ascii.eqb c "010" then 1 else 0) + count_newlines doc' pos')%nat
  | _, _ => O
  end.

Definition lineno (e : exn) : option nat :=
  match e with
  | JSONDecodeError _ doc pos => Some (S (count_newlines doc pos))
  | _ => None
  end.

Definition res (A : Type) : Type := (exn + A)%type.
Definition Ret {A : Type} (x : A) : res A := inr x.
Definition Raise {A : Type} (e : exn) : res A := inl e.

Definition bind {A B : Type} (m : res A) (k : A -> res B) : res B :=
  match m with
  | inl e => inl e
  | inr x => k x
  end.

Notation "x <- m ;; k" := (bind m (fun x => k))
  (at level 61, m at next level, right associativity).

(** ** JSON values and rows of a log file *)

Inductive json : Type :=
| JNull
| JBool (b : bool)
| JInt (n : Z)
| JFloat (literal : string)
| JStr (s : string)
| JArr (items : list json)
| JObj (members : list (string * json)).

(** One turn of the loop of lines 90-91 up to the value of
    [json.loads(row)], by its outcome: either an exception is raised, by
    [json.loads] (text that is not JSON, an integer literal beyond the
    interpreter's limit, text nested too deeply) or already by the iteration
    over the file (bytes that are not text), or [json.loads] returns a
    value. *)
Inductive Row : Type :=
| Raises (e : exn)
| Json (v : json).

Definition json_loads (row : Row) : res json :=
  match row with
  | Raises e => Raise e
  | Json v => Ret v
  end.

(** The dict built from a JSON object keeps the last value of a repeated
    key. *)
Fixpoint dict_get (k : string) (members : list (string * json)) : option json :=
  match members with
  | [] => None
  | (k', v) :: rest =>
      match dict_get k rest with
      | Some v' => Some v'
      | None => if String.eqb k k' then Some v else None
      end
  end.

(** ** LogRecord (lines 12-30) *)

Record LogRecord : Type := mkLogRecord {
  log_level : json;
  timestamp : json;
  message : json
}.

Definition field_names : list string := ["log_level"; "timestamp"; "message"].

(** The constructor call of line 91, on the unpacked result of
    [json.loads]: the generated [__init__] takes exactly the three fields as
    keywords and stores the values as they come. *)
Definition LogRecord_init (obj : json) : res LogRecord :=
  match obj with
  | JObj members =>
      if forallb (fun kv => existsb (String.eqb (fst kv)) field_names) members
      then
        match dict_get "log_level" members,
              dict_get "timestamp" members,
              dict_get "message" members with
        | Some l, Some t, Some m => Ret (mkLogRecord l t m)
        | _, _, _ => Raise TypeError
        end
      else Raise TypeError
  | _ => Raise TypeError
  end.

(** Naive [datetime] values; Python orders them as the tuples of their
    fields (the microsecond is 0 for this format). *)
Record datetime : Type := mkDatetime {
  year : Z; month : Z; day : Z; hour : Z; minute : Z; second : Z
}.

Definition datetime_tuple (d : datetime) : list Z :=
  [year d; month d; day d; hour d; minute d; second d].

Fixpoint tuple_cmp (xs ys : list Z) : comparison :=
  match xs, ys with
  | [], [] => Eq
  | [], _ :: _ => Lt
  | _ :: _, [] => Gt
  | x :: xs', y :: ys' =>
      match Z.compare x y with
      | Eq => tuple_cmp xs' ys'
      | c => c
      end
  end.

Definition datetime_cmp (a b : datetime) : comparison :=
  tuple_cmp (datetime_tuple a) (datetime_tuple b).

Definition datetime_ltb (a b : datetime) : bool :=
  match datetime_cmp a b with Lt => true | _ => false end.

Definition datetime_leb (a b : datetime) : bool :=
  match datetime_cmp a b with Gt => false | _ => true end.

(** ** Input paths and their validation (lines 66-71) *)

(** What the program observes of a [Path]: the answers of [exists()] and
    [is_file()], its [suffix], and, turn by turn, what iterating the opened
    file and [json.loads] on each row produce. *)
Record Path : Type := mkPath {
  path_exists : bool;
  path_is_file : bool;
  path_suffix : string;
  path_rows : list Row
}.

(** [str.lower] on ASCII text. *)
Definition lower_ascii (c : ascii) : ascii :=
  let n := nat_of_ascii c in
  if (Nat.leb 65 n && Nat.leb n 90)%bool then ascii_of_nat (n + 32) else c.

Fixpoint lower (s : string) : string :=
  match s with
  | EmptyString => EmptyString
  | String c s' => String (lower_ascii c) (lower s')
  end.

Definition _check_path_to_log (log_path : Path) : res bool :=
  if negb (path_exists log_path && path_is_file log_path)
  then Raise FileNotFoundError
  else if negb (String.eqb (lower (path_suffix log_path)) ".jsonl")
  then Raise ValueError
  else Ret true.

(** ** The record generator (lines 87-91) *)

(** The states of a generator object made by [_get_record]: created and not
    yet started, suspended at the [yield] inside the [for] with the rows
    still to come, or finished. *)
Inductive RecordGen : Type :=
| GenCreated (log_path : Path)
| GenSuspended (rows : list Row)
| GenClosed.

Definition _get_record (log_path : Path) : RecordGen := GenCreated log_path.

Inductive NextResult : Type :=
| Item (r : LogRecord)
| StopIteration
| Error (e : exn).

(** The expression yielded at line 91. *)
Definition decode_row (row : Row) : res LogRecord :=
  obj <- json_loads row ;; LogRecord_init obj.

(** One turn of the [for] loop of line 90: read and decode the next row and
    yield the record, or fall off the end of the file.  An exception leaves
    the generator finished. *)
Definition next_row (rows : list Row) : NextResult * RecordGen :=
  match rows with
  | [] => (StopIteration, GenClosed)
  | row :: rest =>
      match decode_row row with
      | inl e => (Error e, GenClosed)
      | inr r => (Item r, GenSuspended rest)
      end
  end.

(** [next(g)]: run the generator up to its next [yield]. *)
Definition next (g : RecordGen) : NextResult * RecordGen :=
  match g with
  | GenCreated log_path =>
      match _check_path_to_log log_path with
      | inl e => (Error e, GenClosed)
      | inr true => next_row (path_rows log_path)
      | inr false => (StopIteration, GenClosed)
      end
  | GenSuspended rows => next_row rows
  | GenClosed => (StopIteration, GenClosed)
  end.

(** The rows a generator has not consumed yet. *)
Definition pending (g : RecordGen) : list Row :=
  match g with
  | GenCreated log_path => path_rows log_path
  | GenSuspended rows => rows
  | GenClosed => []
  end.

(** [list(g)]: run the generator to its end, collecting what it yields. *)
Fixpoint drain_rows (rows : list Row) : res (list LogRecord) :=
  match rows with
  | [] => Ret []
  | row :: rest =>
      r <- decode_row row ;;
      rs <- drain_rows rest ;;
      Ret (r :: rs)
  end.

Definition drain (g : RecordGen) : res (list LogRecord) :=
  match g with
  | GenCreated log_path =>
      ok <- _check_path_to_log log_path ;;
      if ok : bool then drain_rows (path_rows log_path) else Ret []
  | GenSuspended rows => drain_rows rows
  | GenClosed => Ret []
  end.

(** ** A model of the library's timestamp parser *)

(** [datetime.strptime] compiles the format '%Y-%m-%d %H:%M:%S' into a
    regular expression, takes its first match from the start of the text in
    backtracking order, rejects text left over after the match, and builds
    the [datetime] from the matched groups.  A matcher returns its possible
    matches in that order. *)
Definition Matcher (A : Type) : Type := list ascii -> list (A * list ascii).

Definition m_ret {A : Type} (x : A) : Matcher A := fun s => [(x, s)].

Definition m_bind {A B : Type} (m : Matcher A) (k : A -> Matcher B) : Matcher B :=
  fun s => flat_map (fun xs => k (fst xs) (snd xs)) (m s).

Definition m_alt {A : Type} (m1 m2 : Matcher A) : Matcher A :=
  fun s => m1 s ++ m2 s.

Definition m_fail {A : Type} : Matcher A := fun _ => [].

(** A digit between [lo] and [hi]. *)
Definition m_digit (lo hi : nat) : Matcher Z :=
  fun s =>
    match s with
    | c :: s' =>
        let n := nat_of_ascii c in
        if (Nat.leb (48 + lo) n && Nat.leb n (48 + hi))%bool
        then [(Z.of_nat (n - 48), s')] else []
    | [] => []
    end.

Definition m_char (c : ascii) : Matcher unit :=
  fun s =>
    match s with
    | c' :: s' => if Ascii.eqb c c' then [(tt, s')] else []
    | [] => []
    end.

(** Two digits, read as a number. *)
Definition m_two (lo1 hi1 lo2 hi2 : nat) : Matcher Z :=
  m_bind (m_digit lo1 hi1) (fun a =>
  m_bind (m_digit lo2 hi2) (fun b => m_ret (10 * a + b))).

Definition m_alts {A : Type} (ms : list (Matcher A)) : Matcher A :=
  fold_right m_alt m_fail ms.

Definition is_space (c : ascii) : bool :=
  let n := nat_of_ascii c in
  (Nat.eqb n 32 || (Nat.leb 9 n && Nat.leb n 13) || (Nat.leb 28 n && Nat.leb n 31))%bool.

(** One or more blanks, the longest run first. *)
Fixpoint m_spaces (s : list ascii) : list (unit * list ascii) :=
  match s with
  | c :: s' => if is_space c then m_spaces s' ++ [(tt, s')] else []
  | [] => []
  end.

Definition re_Y : Matcher Z :=
  m_bind (m_digit 0 9) (fun a => m_bind (m_digit 0 9) (fun b =>
  m_bind (m_digit 0 9) (fun c => m_bind (m_digit 0 9) (fun d =>
  m_ret (1000 * a + 100 * b + 10 * c + d))))).

Definition re_m : Matcher Z :=
  m_alts [m_two 1 1 0 2; m_two 0 0 1 9; m_digit 1 9].

Definition re_d : Matcher Z :=
  m_alts [m_two 3 3 0 1; m_two 1 2 0 9; m_two 0 0 1 9; m_digit 1 9;
          m_bind (m_char " ") (fun _ => m_digit 1 9)].

Definition re_H : Matcher Z :=
  m_alts [m_two 2 2 0 3; m_two 0 1 0 9; m_digit 0 9].

Definition re_M : Matcher Z :=
  m_alts [m_two 0 5 0 9; m_digit 0 9].

Definition re_S : Matcher Z :=
  m_alts [m_two 6 6 0 1; m_two 0 5 0 9; m_digit 0 9].

Definition re_Ymd_HMS : Matcher datetime :=
  m_bind re_Y (fun y => m_bind (m_char "-") (fun _ =>
  m_bind re_m (fun mo => m_bind (m_char "-") (fun _ =>
  m_bind re_d (fun d => m_bind m_spaces (fun _ =>
  m_bind re_H (fun h => m_bind (m_char ":") (fun _ =>
  m_bind re_M (fun mi => m_bind (m_char ":") (fun _ =>
  m_bind re_S (fun sec => m_ret (mkDatetime y mo d h mi sec)))))))))))).

Definition is_leap (y : Z) : bool :=
  (y mod 4 =? 0) && (negb (y mod 100 =? 0) || (y mod 400 =? 0)).

Definition days_in_month (y m : Z) : Z :=
  if m =? 2 then (if is_leap y then 29 else 28)
  else if (m =? 4) || (m =? 6) || (m =? 9) || (m =? 11) then 30
  else 31.

(** The checks of the [date] and [datetime] constructors that the matched
    groups can still fail. *)
Definition datetime_valid (d : datetime) : bool :=
  (1 <=? year d) && (day d <=? days_in_month (year d) (month d))
  && (second d <=? 59).

Definition strptime_Ymd_HMS (s : string) : option datetime :=
  match re_Ymd_HMS (list_ascii_of_string s) with
  | (d, []) :: _ => if datetime_valid d then Some d else None
  | _ => None
  end.

Section Merge.

(** [datetime.strptime(s, '%Y-%m-%d %H:%M:%S')]; [None] is its ValueError. *)
Variable strptime : string -> option datetime.

(** Lines 18-20, the property [__timestamp]. *)
Definition __timestamp (self : LogRecord) : res datetime :=
  match timestamp self with
  | JStr s =>
      match strptime s with
      | Some t => Ret t
      | None => Raise ValueError
      end
  | _ => Raise TypeError
  end.

(** Lines 22-25. *)
Definition __lt__ (self : LogRecord) (other : option LogRecord) : res bool :=
  match other with
  | None => Ret true
  | Some o =>
      t1 <- __timestamp self ;;
      t2 <- __timestamp o ;;
      Ret (datetime_ltb t1 t2)
  end.

(** Lines 27-30. *)
Definition __gt__ (self : LogRecord) (other : option LogRecord) : res bool :=
  match other with
  | None => Ret false
  | Some o =>
      t1 <- __timestamp self ;;
      t2 <- __timestamp o ;;
      Ret (datetime_ltb t2 t1)
  end.

(** Python's [a < b] on two lookahead cells.  [None] has no ordering of its
    own, so [None < r] is answered by the reflected [r.__gt__(None)]. *)
Definition py_lt (a b : option LogRecord) : res bool :=
  match a, b with
  | Some ra, _ => __lt__ ra b
  | None, Some rb => __gt__ rb None
  | None, None => Raise TypeError
  end.

(** ** The merge generator (lines 94-114) *)

Inductive Side : Type := SideA | SideB.

(** The local variables of [_get_output_record] while its loop runs. *)
Record MergeState : Type := mkMergeState {
  log_a_record : option LogRecord;
  log_a_records : RecordGen;
  log_b_record : option LogRecord;
  log_b_records : RecordGen
}.

(** Lines 105-108: [next] with StopIteration turned into [None]. *)
Definition advance_a (st : MergeState) : res MergeState :=
  match next (log_a_records st) with
  | (Item r, g) => Ret (mkMergeState (Some r) g (log_b_record st) (log_b_records st))
  | (StopIteration, g) => Ret (mkMergeState None g (log_b_record st) (log_b_records st))
  | (Error e, _) => Raise e
  end.

(** Lines 111-114. *)
Definition advance_b (st : MergeState) : res MergeState :=
  match next (log_b_records st) with
  | (Item r, g) => Ret (mkMergeState (log_a_record st) (log_a_records st) (Some r) g)
  | (StopIteration, g) => Ret (mkMergeState (log_a_record st) (log_a_records st) None g)
  | (Error e, _) => Raise e
  end.

(** What one evaluation of the loop test and body does. *)
Inductive Step : Type :=
| Halt                                   (* the test of line 102 is false *)
| Fail (e : exn)                         (* the comparison of line 103 raised *)
| Emit (s : Side) (r : LogRecord) (k : res MergeState).
                                         (* a record was yielded, then the
                                            side it came from was advanced *)

(** Lines 102-114.  A yielded cell always holds a record; the consumer in
    [main] would fail with a TypeError on a yielded [None]. *)
Definition loop_step (st : MergeState) : Step :=
  match log_a_record st, log_b_record st with
  | None, None => Halt
  | a, b =>
      match py_lt a b with
      | inl e => Fail e
      | inr true =>
          match a with
          | Some ra => Emit SideA ra (advance_a st)
          | None => Fail TypeError
          end
      | inr false =>
          match b with
          | Some rb => Emit SideB rb (advance_b st)
          | None => Fail TypeError
          end
      end
  end.

(** How the consumption of the merged sequence ends. *)
Inductive Outcome : Type :=
| Done                 (* the generator returned *)
| Raised (e : exn)     (* an exception left the generator *)
| OutOfFuel.           (* the iteration budget of the model ran out *)

Definition Emitted : Type := (Side * LogRecord)%type.

(** A [yield] in front of the rest of a run. *)
Definition emit (x : Emitted) (run : list Emitted * Outcome)
  : list Emitted * Outcome :=
  (x :: fst run, snd run).

(** The [while] loop, iterated at most [fuel] times; every yielded record is
    tagged with the branch that yielded it. *)
Fixpoint loop (fuel : nat) (st : MergeState) : list Emitted * Outcome :=
  match fuel with
  | O => ([], OutOfFuel)
  | S fuel' =>
      match loop_step st with
      | Halt => ([], Done)
      | Fail e => ([], Raised e)
      | Emit s r (inl e) => ([(s, r)], Raised e)
      | Emit s r (inr st') => emit (s, r) (loop fuel' st')
      end
  end.

(** Lines 96-100 followed by the loop.  The first [next] of each generator is
    not guarded, so its StopIteration leaves the generator body as a
    RuntimeError. *)
Definition merge_from (fuel : nat) (log_a_path log_b_path : Path)
  : list Emitted * Outcome :=
  let log_a_records := _get_record log_a_path in
  let log_b_records := _get_record log_b_path in
  match next log_a_records with
  | (Error e, _) => ([], Raised e)
  | (StopIteration, _) => ([], Raised RuntimeError)
  | (Item ra, ga) =>
      match next log_b_records with
      | (Error e, _) => ([], Raised e)
      | (StopIteration, _) => ([], Raised RuntimeError)
      | (Item rb, gb) => loop fuel (mkMergeState (Some ra) ga (Some rb) gb)
      end
  end.

(** The number of loop iterations that is always enough: one per row of the
    two files, and one for the final test. *)
Definition enough_fuel (log_a_path log_b_path : Path) : nat :=
  S (List.length (path_rows log_a_path) + List.length (path_rows log_b_path)).

Definition merge_trace (log_a_path log_b_path : Path) : list Emitted * Outcome :=
  merge_from (enough_fuel log_a_path log_b_path) log_a_path log_b_path.

(** The sequence of records the generator yields, and how it ends. *)
Definition _get_output_record (log_a_path log_b_path : Path)
  : list LogRecord * Outcome :=
  let run := merge_trace log_a_path log_b_path in (map snd (fst run), snd run).

(** ** Orderings of records *)

(** [r1]'s parsed timestamp is at most [r2]'s (both must parse). *)
Definition ts_leb (r1 r2 : LogRecord) : bool :=
  match __timestamp r1, __timestamp r2 with
  | inr t1, inr t2 => datetime_leb t1 t2
  | _, _ => false
  end.

Definition ts_ltb (r1 r2 : LogRecord) : bool :=
  match __timestamp r1, __timestamp r2 with
  | inr t1, inr t2 => datetime_ltb t1 t2
  | _, _ => false
  end.

Definition ts_eqb (r1 r2 : LogRecord) : bool :=
  match __timestamp r1, __timestamp r2 with
  | inr t1, inr t2 =>
      match datetime_cmp t1 t2 with Eq => true | _ => false end
  | _, _ => false
  end.

(** Every adjacent pair of the sequence is in non-decreasing order of parsed
    timestamp. *)
Fixpoint sorted_by_timestamp (l : list LogRecord) : bool :=
  match l with
  | [] => true
  | r1 :: tl =>
      match tl with
      | [] => true
      | r2 :: _ => ts_leb r1 r2 && sorted_by_timestamp tl
      end
  end.

(** ** Tie-breaking, as properties of a tagged output *)

(** Some occurrence of [(s1, r1)] precedes some occurrence of [(s2, r2)]. *)
Definition emitted_before (s1 : Side) (r1 : LogRecord) (s2 : Side)
  (r2 : LogRecord) (out : list Emitted) : Prop :=
  exists pre mid post, out = pre ++ (s1, r1) :: mid ++ (s2, r2) :: post.

(** Of a record of A and a record of B with equal parsed timestamps, the
    one of A comes first. *)
Definition ties_favor_left (out : list Emitted) : Prop :=
  forall ra rb,
    In (SideA, ra) out -> In (SideB, rb) out -> ts_eqb ra rb = true ->
    emitted_before SideA ra SideB rb out.

(** Of a record of A and a record of B with equal parsed timestamps, the
    one of B comes first, and never after the one of A. *)
Definition ties_favor_right (out : list Emitted) : Prop :=
  forall ra rb,
    In (SideA, ra) out -> In (SideB, rb) out -> ts_eqb ra rb = true ->
    emitted_before SideB rb SideA ra out /\
    ~ emitted_before SideA ra SideB rb out.

(** ** The loop replayed on lazily decoded inputs *)

(** What a generator will still produce: records, then the end of the file
    or the exception that stops it. *)
Inductive Feed : Type :=
| FeedEnd
| FeedItem (r : LogRecord) (rest : Feed)
| FeedError (e : exn).

Fixpoint feed_of_rows (rows : list Row) : Feed :=
  match rows with
  | [] => FeedEnd
  | row :: rest =>
      match decode_row row with
      | inl e => FeedError e
      | inr r => FeedItem r (feed_of_rows rest)
      end
  end.

Definition feed_of_gen (g : RecordGen) : Feed :=
  match g with
  | GenCreated log_path =>
      match _check_path_to_log log_path with
      | inl e => FeedError e
      | inr true => feed_of_rows (path_rows log_path)
      | inr false => FeedEnd
      end
  | GenSuspended rows => feed_of_rows rows
  | GenClosed => FeedEnd
  end.

(** A lookahead cell with the generator behind it. *)
Definition cell_feed (c : option LogRecord) (g : RecordGen) : Feed :=
  match c with
  | Some r => FeedItem r (feed_of_gen g)
  | None => FeedEnd
  end.

Fixpoint feed_of_list (l : list LogRecord) : Feed :=
  match l with
  | [] => FeedEnd
  | r :: l' => FeedItem r (feed_of_list l')
  end.

Fixpoint feed_items (f : Feed) : list LogRecord :=
  match f with
  | FeedItem r f' => r :: feed_items f'
  | _ => []
  end.

Fixpoint feed_error (f : Feed) : option exn :=
  match f with
  | FeedEnd => None
  | FeedItem _ f' => feed_error f'
  | FeedError e => Some e
  end.

(** The loop of lines 102-114 on two feeds; a feed that starts with an
    exception stands for an advance that raised. *)
Fixpoint merge_feeds (fa : Feed) : Feed -> list Emitted * Outcome :=
  fix merge_b (fb : Feed) : list Emitted * Outcome :=
    match fa with
    | FeedError e => ([], Raised e)
    | FeedEnd =>
        match fb with
        | FeedError e => ([], Raised e)
        | FeedEnd => ([], Done)
        | FeedItem rb fb' => emit (SideB, rb) (merge_b fb')
        end
    | FeedItem ra fa' =>
        match fb with
        | FeedError e => ([], Raised e)
        | FeedEnd => emit (SideA, ra) (merge_feeds fa' FeedEnd)
        | FeedItem rb fb' =>
            match __lt__ ra (Some rb) with
            | inl e => ([], Raised e)
            | inr true => emit (SideA, ra) (merge_feeds fa' fb)
            | inr false => emit (SideB, rb) (merge_b fb')
            end
        end
    end.

(** Lines 99-100 on two feeds. *)
Definition merge_start (fa fb : Feed) : list Emitted * Outcome :=
  match fa with
  | FeedError e => ([], Raised e)
  | FeedEnd => ([], Raised RuntimeError)
  | FeedItem _ _ =>
      match fb with
      | FeedError e => ([], Raised e)
      | FeedEnd => ([], Raised RuntimeError)
      | FeedItem _ _ => merge_feeds fa fb
      end
  end.

(** The records of a tagged output that were yielded from side [s]. *)
Definition side_eqb (s1 s2 : Side) : bool :=
  match s1, s2 with
  | SideA, SideA | SideB, SideB => true
  | _, _ => false
  end.

Fixpoint emitted_from (s : Side) (out : list Emitted) : list LogRecord :=
  match out with
  | [] => []
  | (s', r) :: out' =>
      if side_eqb s s' then r :: emitted_from s out' else emitted_from s out'
  end.

End Merge.

(** ** Input conditions named by the specification *)

(** A path that does not exist, is not a regular file, or does not end in
    [.jsonl] up to case. *)
Definition invalid_input (p : Path) : bool :=
  negb (path_exists p) || negb (path_is_file p)
  || negb (String.eqb (lower (path_suffix p)) ".jsonl").

(** The two exceptions of [_check_path_to_log], which the specification
    calls InvalidInputError. *)
Definition InvalidInputError (e : exn) : Prop :=
  e = FileNotFoundError \/ e = ValueError.

(** The rows the specification calls structurally invalid, as far as the
    reader can fail on them, each with the exception it makes the reader
    raise: text that is not JSON, and an object that lacks one of the three
    fields.  (The third kind the specification names, a timestamp that does
    not parse, is no failure of the reader.) *)
Inductive structurally_invalid : Row -> exn -> Prop :=
| bad_json (msg doc : string) (pos : nat) :
    structurally_invalid (Raises (JSONDecodeError msg doc pos))
                         (JSONDecodeError msg doc pos)
| missing_field (members : list (string * json)) (f : string) :
    In f field_names -> ~ In f (map fst members) ->
    structurally_invalid (Json (JObj members)) TypeError.

(** The path a side reads. *)
Definition side_path (s : Side) (log_a_path log_b_path : Path) : Path :=
  match s with
  | SideA => log_a_path
  | SideB => log_b_path
  end.

(** The loop state in which only side [s] still holds a record [r], with
    generator [g]; [other] is the generator of the side that has ended. *)
Definition live_state (s : Side) (r : LogRecord) (g other : RecordGen)
  : MergeState :=
  match s with
  | SideA => mkMergeState (Some r) g None other
  | SideB => mkMergeState None other (Some r) g
  end.


(** ** Sample log files *)

Definition row_of (level ts msg : string) : Row :=
  Json (JObj [("log_level", JStr level); ("timestamp", JStr ts); ("message", JStr msg)]).

Definition rec_of (level ts msg : string) : LogRecord :=
  mkLogRecord (JStr level) (JStr ts) (JStr msg).

Definition log_file (rows : list Row) : Path := mkPath true true ".jsonl" rows.

(** The example of the specification: A holds a and c, B holds b. *)
Definition file_ac : Path :=
  log_file [row_of "INFO" "2024-01-01 00:00:01" "a";
            row_of "INFO" "2024-01-01 00:00:05" "c"].

Definition file_b : Path :=
  log_file [row_of "WARN" "2024-01-01 00:00:03" "b"].

(** Two files whose single records carry the same timestamp. *)
Definition file_tie_a : Path :=
  log_file [row_of "INFO" "2024-01-01 00:00:03" "from a"].

Definition file_tie_b : Path :=
  log_file [row_of "INFO" "2024-01-01 00:00:03" "from b"].

(** A file whose last row carries a timestamp that does not parse. *)
Definition file_b_badts : Path :=
  log_file [row_of "WARN" "2024-01-01 00:00:03" "b";
            row_of "WARN" "yesterday" "late"].

Definition file_a1 : Path :=
  log_file [row_of "INFO" "2024-01-01 00:00:01" "a"].

(** An existing, empty log file. *)
Definition file_empty : Path := log_file [].

(** A path that does not exist. *)
Definition file_missing : Path := mkPath false false ".jsonl" [].

(** A well-named file whose first row lacks two of the fields. *)
Definition file_badrow : Path :=
  log_file [Json (JObj [("log_level", JStr "INFO")]);
            row_of "INFO" "2024-01-01 00:00:01" "a"].

(** A row holding the text [not json] and the newline that ends it:
    [json.loads] raises at its first character. *)
Definition not_json_error : exn :=
  JSONDecodeError "Expecting value"
    (String.append "not json" (String "010" EmptyString)) 0.

Definition not_json_row : Row := Raises not_json_error.

(** A file with a row that is not JSON after one good row. *)
Definition file_a_notjson : Path :=
  log_file [row_of "INFO" "2024-01-01 00:00:01" "a"; not_json_row;
            row_of "INFO" "2024-01-01 00:00:05" "c"].

(** An object without the timestamp field. *)
Definition row_nofield : Row :=
  Json (JObj [("log_level", JStr "INFO"); ("message", JStr "x")]).

(** A file whose second row lacks a field. *)
Definition file_a_nofield : Path :=
  log_file [row_of "INFO" "2024-01-01 00:00:01" "a"; row_nofield].

(** Two good rows, then a row that is not JSON. *)
Definition file_ac_notjson : Path :=
  log_file [row_of "INFO" "2024-01-01 00:00:01" "a";
            row_of "INFO" "2024-01-01 00:00:05" "c"; not_json_row].

Definition file_bd : Path :=
  log_file [row_of "WARN" "2024-01-01 00:00:03" "b";
            row_of "WARN" "2024-01-01 00:00:07" "d"].


(** The records of the sample files. *)
Definition records_ac : list LogRecord :=
  [rec_of "INFO" "2024-01-01 00:00:01" "a";
   rec_of "INFO" "2024-01-01 00:00:05" "c"].

Definition records_b : list LogRecord :=
  [rec_of "WARN" "2024-01-01 00:00:03" "b"].

Definition records_abc : list LogRecord :=
  [rec_of "INFO" "2024-01-01 00:00:01" "a";
   rec_of "WARN" "2024-01-01 00:00:03" "b";
   rec_of "INFO" "2024-01-01 00:00:05" "c"].

Definition rec_tie_a : LogRecord := rec_of "INFO" "2024-01-01 00:00:03" "from a".

Definition rec_tie_b : LogRecord := rec_of "INFO" "2024-01-01 00:00:03" "from b".


(** ** Consuming a record generator *)

(** A [for] loop over a generator that collects what it yields, iterated at
    most [fuel] times; an exception leaves the records collected so far. *)
Fixpoint read_all (fuel : nat) (g : RecordGen) : list LogRecord * Outcome :=
  match fuel with
  | O => ([], OutOfFuel)
  | S fuel' =>
      match next g with
      | (Item r, g') =>
          let rest := read_all fuel' g' in (r :: fst rest, snd rest)
      | (StopIteration, _) => ([], Done)
      | (Error e, _) => ([], Raised e)
      end
  end.

(** The records a file yields before its generator ends or raises. *)
Definition readable_records (p : Path) : list LogRecord :=
  feed_items (feed_of_gen (_get_record p)).

Definition other_side (s : Side) : Side :=
  match s with
  | SideA => SideB
  | SideB => SideA
  end.

(** No record of the first sequence has the parsed timestamp of a record of
    the second. *)
Definition no_cross_ties (strptime : string -> option datetime)
  (A B : list LogRecord) : Prop :=
  forall a b, In a A -> In b B -> ts_eqb strptime a b = false.

(** ** The writer (line 131) *)

(** [asdict(log_record)]: the fields in the order of their declaration. *)
Definition asdict (r : LogRecord) : json :=
  JObj [("log_level", log_level r); ("timestamp", timestamp r);
        ("message", message r)].

(** A line of the output file, named by the value whose [json.dumps] text
    it holds; the text itself, and what reading it back gives, are the
    library's. *)
Inductive Line : Type :=
| Dumps (v : json).

Definition written_line (r : LogRecord) : Line := Dumps (asdict r).

(** ** The output directory and the program (lines 74-84 and 117-132) *)

Inductive Message : Type :=
| MsgMerging      (* line 120 *)
| MsgOutputExists (* lines 77-80 *)
| MsgFinished.    (* line 132 *)

(** The calls by which the program acts on the terminal and on the output
    directory, in the order it makes them.  The calls are taken to succeed,
    and an existing output path to be a directory. *)
Inductive Effect : Type :=
| Print (m : Message)
| Input                  (* [input()] read the answer *)
| Rmtree                 (* [rmtree(output_dir)] *)
| Mkdir                  (* [output_dir.mkdir(parents=True)] *)
| OpenOutput             (* [open(output_file_path, 'w')] *)
| WriteLine (line : Line) (* [merged_log_file.write] *)
| CloseOutput.           (* the end of the [with] block *)

Inductive Control : Type :=
| Continue
| SystemExit (code : Z).

(** Lines 74-84.  [dir_exists] is what [output_dir.exists()] answers and
    [answer] the line that [input()] returns when it is called.  Line 81
    rebinds [overwrite] to [True] or leaves through [exit(0)]. *)
Definition _create_output_dir (dir_exists overwrite : bool) (answer : string)
  : list Effect * Control :=
  if dir_exists then
    let asked : list Effect * (Control + bool) :=
      if negb overwrite then
        ([Print MsgOutputExists; Input],
         if negb (String.eqb (lower answer) "no")
         then inr true else inl (SystemExit 0))
      else ([], inr overwrite) in
    match snd asked with
    | inl control => (fst asked, control)
    | inr overwrite' =>
        (fst asked ++ (if overwrite' : bool then [Rmtree] else []) ++ [Mkdir],
         Continue)
    end
  else ([Mkdir], Continue).

(** What the program is started with: the two input paths as the generators
    find them, whether the output directory exists, and the [-w] flag. *)
Record Args : Type := mkArgs {
  path_to_log_a : Path;
  path_to_log_b : Path;
  output_dir_exists : bool;
  overwrite : bool
}.

Inductive ProgramEnd : Type :=
| Finished             (* [main] returned *)
| Exited (code : Z)    (* [exit] was called *)
| Aborted (e : exn)    (* an exception left [main] *)
| Unfinished.          (* the iteration budget of the model ran out *)

(** The lines a run of the program wrote to the output file. *)
Fixpoint written_lines (effects : list Effect) : list Line :=
  match effects with
  | [] => []
  | WriteLine line :: rest => line :: written_lines rest
  | _ :: rest => written_lines rest
  end.

Section Program.

Variable strptime : string -> option datetime.

(** Lines 117-132. *)
Definition main (args : Args) (answer : string) : list Effect * ProgramEnd :=
  let (dir_effects, control) :=
    _create_output_dir (output_dir_exists args) (overwrite args) answer in
  match control with
  | SystemExit code => (Print MsgMerging :: dir_effects, Exited code)
  | Continue =>
      let run :=
        _get_output_record strptime (path_to_log_a args) (path_to_log_b args) in
      let writes := map (fun r => WriteLine (written_line r)) (fst run) in
      let effects :=
        Print MsgMerging :: dir_effects ++ OpenOutput :: writes ++ [CloseOutput] in
      match snd run with
      | Done => (effects ++ [Print MsgFinished], Finished)
      | Raised e => (effects, Aborted e)
      | OutOfFuel => (effects, Unfinished)
      end
  end.

End Program.

(** ** More sample files *)

(** The row of [file_b] with its fields in another order. *)
Definition row_b_reordered : Row :=
  Json (JObj [("message", JStr "b"); ("log_level", JStr "WARN");
              ("timestamp", JStr "2024-01-01 00:00:03")]).


(** * Properties *)

(** ** The order of datetime values *)

Lemma tuple_cmp_refl (xs : list Z) : tuple_cmp xs xs = Eq.
Proof.
  induction xs as [|x xs IH]; simpl; [reflexivity|].
  now rewrite Z.compare_refl.
Qed.

Lemma tuple_cmp_antisym (xs ys : list Z) :
  tuple_cmp ys xs = CompOpp (tuple_cmp xs ys).
Proof.
  revert ys; induction xs as [|x xs IH]; intros [|y ys]; simpl; auto.
  rewrite (Z.compare_antisym x y).
  destruct (x ?= y); simpl; auto.
Qed.

Lemma tuple_cmp_eq (xs ys : list Z) : tuple_cmp xs ys = Eq -> xs = ys.
Proof.
  revert ys; induction xs as [|x xs IH]; intros [|y ys]; simpl;
    try discriminate; auto.
  destruct (x ?= y) eqn:E; try discriminate.
  intros H. apply Z.compare_eq in E. subst y. f_equal. now apply IH.
Qed.

Lemma tuple_cmp_lt_trans (xs ys zs : list Z) :
  tuple_cmp xs ys = Lt -> tuple_cmp ys zs = Lt -> tuple_cmp xs zs = Lt.
Proof.
  revert ys zs; induction xs as [|x xs IH]; intros [|y ys] [|z zs]; simpl;
    try discriminate; auto.
  destruct (x ?= y) eqn:Exy; try discriminate;
    destruct (y ?= z) eqn:Eyz; try discriminate; intros H1 H2.
  - apply Z.compare_eq in Exy, Eyz. subst. rewrite Z.compare_refl. eauto.
  - apply Z.compare_eq in Exy. subst. now rewrite Eyz.
  - apply Z.compare_eq in Eyz. subst. now rewrite Exy.
  - assert (x < z) as Hlt.
    { rewrite Z.compare_lt_iff in Exy. rewrite Z.compare_lt_iff in Eyz. lia. }
    rewrite <- Z.compare_lt_iff in Hlt. now rewrite Hlt.
Qed.

Lemma datetime_ltb_leb (a b : datetime) :
  datetime_ltb a b = true -> datetime_leb a b = true.
Proof.
  unfold datetime_ltb, datetime_leb. now destruct (datetime_cmp a b).
Qed.

Lemma datetime_ltb_false_leb (a b : datetime) :
  datetime_ltb a b = false -> datetime_leb b a = true.
Proof.
  unfold datetime_ltb, datetime_leb, datetime_cmp.
  rewrite (tuple_cmp_antisym (datetime_tuple a) (datetime_tuple b)).
  now destruct (tuple_cmp (datetime_tuple a) (datetime_tuple b)).
Qed.

Lemma datetime_ltb_leb_trans (a b c : datetime) :
  datetime_ltb a b = true -> datetime_leb b c = true -> datetime_ltb a c = true.
Proof.
  unfold datetime_ltb, datetime_leb, datetime_cmp.
  destruct (tuple_cmp (datetime_tuple a) (datetime_tuple b)) eqn:Eab;
    try discriminate; intros _.
  destruct (tuple_cmp (datetime_tuple b) (datetime_tuple c)) eqn:Ebc;
    try discriminate; intros _.
  - apply tuple_cmp_eq in Ebc. rewrite <- Ebc. now rewrite Eab.
  - now rewrite (tuple_cmp_lt_trans _ _ _ Eab Ebc).
Qed.

Lemma datetime_leb_trans (a b c : datetime) :
  datetime_leb a b = true -> datetime_leb b c = true -> datetime_leb a c = true.
Proof.
  unfold datetime_leb, datetime_cmp.
  destruct (tuple_cmp (datetime_tuple a) (datetime_tuple b)) eqn:Eab;
    try discriminate; intros _.
  - apply tuple_cmp_eq in Eab. now rewrite Eab.
  - destruct (tuple_cmp (datetime_tuple b) (datetime_tuple c)) eqn:Ebc;
      try discriminate; intros _.
    + apply tuple_cmp_eq in Ebc. rewrite <- Ebc. now rewrite Eab.
    + now rewrite (tuple_cmp_lt_trans _ _ _ Eab Ebc).
Qed.


Lemma datetime_cmp_eq_ltb (a b : datetime) :
  datetime_cmp a b = Eq -> datetime_ltb a b = false.
Proof. unfold datetime_ltb. now intros ->. Qed.

Lemma datetime_ltb_irrefl (a : datetime) : datetime_ltb a a = false.
Proof. apply datetime_cmp_eq_ltb. apply tuple_cmp_refl. Qed.

Section MergeProps.

Variable strptime : string -> option datetime.

(** ** Comparisons of records *)

Lemma lt_true_ts_ltb (ra rb : LogRecord) :
  __lt__ strptime ra (Some rb) = inr true -> ts_ltb strptime ra rb = true.
Proof.
  unfold __lt__, ts_ltb, bind, Ret.
  destruct (__timestamp strptime ra); try discriminate.
  destruct (__timestamp strptime rb); try discriminate.
  congruence.
Qed.

Lemma lt_false_ts_leb (ra rb : LogRecord) :
  __lt__ strptime ra (Some rb) = inr false -> ts_leb strptime rb ra = true.
Proof.
  unfold __lt__, ts_leb, bind, Ret.
  destruct (__timestamp strptime ra); try discriminate.
  destruct (__timestamp strptime rb); try discriminate.
  intros H. apply datetime_ltb_false_leb. congruence.
Qed.

Lemma ts_ltb_leb (r1 r2 : LogRecord) :
  ts_ltb strptime r1 r2 = true -> ts_leb strptime r1 r2 = true.
Proof.
  unfold ts_ltb, ts_leb.
  destruct (__timestamp strptime r1); try discriminate.
  destruct (__timestamp strptime r2); try discriminate.
  apply datetime_ltb_leb.
Qed.

Lemma ts_ltb_leb_trans (r1 r2 r3 : LogRecord) :
  ts_ltb strptime r1 r2 = true -> ts_leb strptime r2 r3 = true ->
  ts_ltb strptime r1 r3 = true.
Proof.
  unfold ts_ltb, ts_leb.
  destruct (__timestamp strptime r1); try discriminate.
  destruct (__timestamp strptime r2); try discriminate.
  destruct (__timestamp strptime r3); try discriminate.
  apply datetime_ltb_leb_trans.
Qed.

Lemma ts_eqb_not_ltb (r1 r2 : LogRecord) :
  ts_eqb strptime r1 r2 = true -> ts_ltb strptime r1 r2 = false.
Proof.
  unfold ts_eqb, ts_ltb.
  destruct (__timestamp strptime r1); try discriminate.
  destruct (__timestamp strptime r2); try discriminate.
  destruct (datetime_cmp d d0) eqn:E; try discriminate.
  intros _. now apply datetime_cmp_eq_ltb.
Qed.

Lemma ts_leb_trans (r1 r2 r3 : LogRecord) :
  ts_leb strptime r1 r2 = true -> ts_leb strptime r2 r3 = true ->
  ts_leb strptime r1 r3 = true.
Proof.
  unfold ts_leb.
  destruct (__timestamp strptime r1); try discriminate.
  destruct (__timestamp strptime r2); try discriminate.
  destruct (__timestamp strptime r3); try discriminate.
  apply datetime_leb_trans.
Qed.

(** ** Sorted sequences *)

Lemma sorted_cons2 (r1 r2 : LogRecord) (l : list LogRecord) :
  sorted_by_timestamp strptime (r1 :: r2 :: l) =
  ts_leb strptime r1 r2 && sorted_by_timestamp strptime (r2 :: l).
Proof. reflexivity. Qed.

Lemma sorted_tail (r : LogRecord) (l : list LogRecord) :
  sorted_by_timestamp strptime (r :: l) = true ->
  sorted_by_timestamp strptime l = true.
Proof.
  destruct l as [|r2 l]; [reflexivity|].
  rewrite sorted_cons2. intros H. now apply andb_true_iff in H.
Qed.

Lemma sorted_cons (r : LogRecord) (l : list LogRecord) :
  (forall r2, hd_error l = Some r2 -> ts_leb strptime r r2 = true) ->
  sorted_by_timestamp strptime l = true ->
  sorted_by_timestamp strptime (r :: l) = true.
Proof.
  destruct l as [|r2 l]; [reflexivity|].
  intros Hhd Hl. rewrite sorted_cons2. apply andb_true_iff. split; auto.
Qed.

Lemma sorted_head (r r2 : LogRecord) (l : list LogRecord) :
  sorted_by_timestamp strptime (r :: l) = true ->
  hd_error l = Some r2 -> ts_leb strptime r r2 = true.
Proof.
  destruct l as [|r' l]; [discriminate|].
  rewrite sorted_cons2. intros H [= ->]. now apply andb_true_iff in H.
Qed.

(** In a sorted sequence the first record is at most every later one. *)
Lemma sorted_head_le (l : list LogRecord) : forall r x,
  sorted_by_timestamp strptime (r :: l) = true -> In x l ->
  ts_leb strptime r x = true.
Proof.
  induction l as [|r2 l IH]; intros r x Hs Hin; [contradiction|].
  rewrite sorted_cons2 in Hs. apply andb_true_iff in Hs as [H12 Hs].
  destruct Hin as [->|Hin]; [exact H12|].
  apply ts_leb_trans with r2; auto.
Qed.

(** ** Sequences and feeds *)

Lemma feed_items_of_list (l : list LogRecord) : feed_items (feed_of_list l) = l.
Proof. induction l; simpl; congruence. Qed.

Lemma feed_error_of_list (l : list LogRecord) : feed_error (feed_of_list l) = None.
Proof. induction l; simpl; congruence. Qed.

Lemma drain_rows_feed (rows : list Row) : forall l,
  drain_rows rows = inr l -> feed_of_rows rows = feed_of_list l.
Proof.
  induction rows as [|row rest IH]; simpl; intros l H.
  - now injection H as <-.
  - unfold bind in H. destruct (decode_row row) as [e|r]; [discriminate|].
    destruct (drain_rows rest) as [e|rs]; [discriminate|].
    injection H as <-. simpl. now rewrite (IH rs).
Qed.

Lemma drain_feed (g : RecordGen) (l : list LogRecord) :
  drain g = inr l -> feed_of_gen g = feed_of_list l.
Proof.
  destruct g as [p|rows|]; simpl.
  - unfold bind. destruct (_check_path_to_log p) as [e|[|]]; try discriminate.
    + apply drain_rows_feed.
    + now intros [= <-].
  - apply drain_rows_feed.
  - now intros [= <-].
Qed.

(** ** Tagged outputs *)

Lemma emitted_from_In (s : Side) (r : LogRecord) (out : list Emitted) :
  In (s, r) out -> In r (emitted_from s out).
Proof.
  induction out as [|[s' r'] out IH]; simpl; [auto|].
  intros [[= -> ->]|Hin].
  - destruct s; simpl; auto.
  - destruct (side_eqb s s'); simpl; auto.
Qed.

Lemma emitted_from_length (out : list Emitted) :
  List.length out =
  (List.length (emitted_from SideA out) +
   List.length (emitted_from SideB out))%nat.
Proof.
  induction out as [|[[|] r] out IH]; simpl; lia.
Qed.

(** A tagged output is an interleaving of what either side yielded. *)
Lemma emitted_from_perm (out : list Emitted) :
  Permutation (map snd out)
    (emitted_from SideA out ++ emitted_from SideB out).
Proof.
  induction out as [|[[|] r] out IH]; simpl.
  - constructor.
  - now constructor.
  - now apply Permutation_cons_app.
Qed.

(** The dispatch of [<] on lookahead cells, case by case. *)
Lemma py_lt_record_None (ra : LogRecord) :
  py_lt strptime (Some ra) None = Ret true.
Proof. reflexivity. Qed.

Lemma py_lt_None_record (rb : LogRecord) :
  py_lt strptime None (Some rb) = Ret false.
Proof. reflexivity. Qed.

Lemma py_lt_records (ra rb : LogRecord) :
  py_lt strptime (Some ra) (Some rb) =
  match __timestamp strptime ra, __timestamp strptime rb with
  | inl e, _ => Raise e
  | inr _, inl e => Raise e
  | inr ta, inr tb => Ret (datetime_ltb ta tb)
  end.
Proof.
  unfold py_lt, __lt__, bind.
  destruct (__timestamp strptime ra); [reflexivity|].
  now destruct (__timestamp strptime rb).
Qed.

(** ** Generators and their feeds *)

Lemma next_row_feed (rows : list Row) :
  match next_row rows with
  | (Item r, g') => feed_of_rows rows = FeedItem r (feed_of_gen g')
  | (StopIteration, _) => feed_of_rows rows = FeedEnd
  | (Error e, _) => feed_of_rows rows = FeedError e
  end.
Proof.
  destruct rows as [|row rest]; simpl; [reflexivity|].
  now destruct (decode_row row).
Qed.

Lemma next_feed (g : RecordGen) :
  match next g with
  | (Item r, g') => feed_of_gen g = FeedItem r (feed_of_gen g')
  | (StopIteration, _) => feed_of_gen g = FeedEnd
  | (Error e, _) => feed_of_gen g = FeedError e
  end.
Proof.
  destruct g as [p|rows|]; simpl.
  - destruct (_check_path_to_log p) as [e|[|]]; try reflexivity.
    apply next_row_feed.
  - apply next_row_feed.
  - reflexivity.
Qed.

(** Advancing a side replaces its lookahead cell by what its generator
    gives next and leaves the other side as it is. *)
Lemma advance_a_frame (st st' : MergeState) :
  advance_a st = inr st' ->
  log_b_record st' = log_b_record st /\
  log_b_records st' = log_b_records st /\
  cell_feed (log_a_record st') (log_a_records st') =
  feed_of_gen (log_a_records st).
Proof.
  unfold advance_a. pose proof (next_feed (log_a_records st)) as Hn.
  destruct (next (log_a_records st)) as [[r| |e] g]; intros [= <-]; simpl;
    now rewrite Hn.
Qed.

Lemma advance_b_frame (st st' : MergeState) :
  advance_b st = inr st' ->
  log_a_record st' = log_a_record st /\
  log_a_records st' = log_a_records st /\
  cell_feed (log_b_record st') (log_b_records st') =
  feed_of_gen (log_b_records st).
Proof.
  unfold advance_b. pose proof (next_feed (log_b_records st)) as Hn.
  destruct (next (log_b_records st)) as [[r| |e] g]; intros [= <-]; simpl;
    now rewrite Hn.
Qed.

Lemma feed_of_rows_size (rows : list Row) :
  (List.length (feed_items (feed_of_rows rows)) <= List.length rows)%nat.
Proof.
  induction rows as [|row rest IH]; simpl; [lia|].
  destruct (decode_row row); simpl; lia.
Qed.

Lemma feed_of_gen_size (g : RecordGen) :
  (List.length (feed_items (feed_of_gen g)) <= List.length (pending g))%nat.
Proof.
  destruct g as [p|rows|]; simpl.
  - destruct (_check_path_to_log p) as [e|[|]]; simpl;
      try lia; apply feed_of_rows_size.
  - apply feed_of_rows_size.
  - lia.
Qed.

(** ** The replayed loop, case by case *)

Lemma merge_feeds_cases
  (P : Feed -> Feed -> list Emitted * Outcome -> Prop) :
  (forall e fb, P (FeedError e) fb ([], Raised e)) ->
  (forall e, P FeedEnd (FeedError e) ([], Raised e)) ->
  P FeedEnd FeedEnd ([], Done) ->
  (forall rb fb',
      P FeedEnd fb' (merge_feeds strptime FeedEnd fb') ->
      P FeedEnd (FeedItem rb fb')
        (emit (SideB, rb) (merge_feeds strptime FeedEnd fb'))) ->
  (forall ra fa' e, P (FeedItem ra fa') (FeedError e) ([], Raised e)) ->
  (forall ra fa',
      P fa' FeedEnd (merge_feeds strptime fa' FeedEnd) ->
      P (FeedItem ra fa') FeedEnd
        (emit (SideA, ra) (merge_feeds strptime fa' FeedEnd))) ->
  (forall ra fa' rb fb' e,
      __lt__ strptime ra (Some rb) = inl e ->
      P (FeedItem ra fa') (FeedItem rb fb') ([], Raised e)) ->
  (forall ra fa' rb fb',
      __lt__ strptime ra (Some rb) = inr true ->
      P fa' (FeedItem rb fb') (merge_feeds strptime fa' (FeedItem rb fb')) ->
      P (FeedItem ra fa') (FeedItem rb fb')
        (emit (SideA, ra) (merge_feeds strptime fa' (FeedItem rb fb')))) ->
  (forall ra fa' rb fb',
      __lt__ strptime ra (Some rb) = inr false ->
      P (FeedItem ra fa') fb' (merge_feeds strptime (FeedItem ra fa') fb') ->
      P (FeedItem ra fa') (FeedItem rb fb')
        (emit (SideB, rb) (merge_feeds strptime (FeedItem ra fa') fb'))) ->
  forall fa fb, P fa fb (merge_feeds strptime fa fb).
Proof.
  intros HE HEE HNN HNI HIE HIN HIIe HIIa HIIb.
  induction fa as [|ra fa' IHa|e].
  - induction fb as [|rb fb' IHb|e'].
    + exact HNN.
    + apply HNI. exact IHb.
    + apply HEE.
  - induction fb as [|rb fb' IHb|e'].
    + apply HIN. apply IHa.
    + change (merge_feeds strptime (FeedItem ra fa') (FeedItem rb fb')) with
        (match __lt__ strptime ra (Some rb) with
         | inl e => ([], Raised e)
         | inr true =>
             emit (SideA, ra) (merge_feeds strptime fa' (FeedItem rb fb'))
         | inr false =>
             emit (SideB, rb) (merge_feeds strptime (FeedItem ra fa') fb')
         end).
      destruct (__lt__ strptime ra (Some rb)) as [e|[|]] eqn:Hlt.
      * now apply HIIe.
      * apply HIIa; [exact Hlt|]. apply IHa.
      * apply HIIb; [exact Hlt|]. exact IHb.
    + apply HIE.
  - intros fb. destruct fb; apply HE.
Qed.

Lemma merge_feeds_error_l (e : exn) (fb : Feed) :
  merge_feeds strptime (FeedError e) fb = ([], Raised e).
Proof. now destruct fb. Qed.

(** ** The loop computes the replay *)

Lemma loop_replay (fuel : nat) : forall st : MergeState,
  (List.length (feed_items (cell_feed (log_a_record st) (log_a_records st))) +
   List.length (feed_items (cell_feed (log_b_record st) (log_b_records st)))
   < fuel)%nat ->
  loop strptime fuel st =
  merge_feeds strptime (cell_feed (log_a_record st) (log_a_records st))
                       (cell_feed (log_b_record st) (log_b_records st)).
Proof.
  induction fuel as [|fuel IH]; intros st Hfuel; [lia|].
  destruct st as [a ga b gb].
  cbn [log_a_record log_a_records log_b_record log_b_records] in Hfuel |- *.
  cbn [loop]. unfold loop_step.
  cbn [log_a_record log_a_records log_b_record log_b_records].
  destruct a as [ra|], b as [rb|]; cbn [cell_feed feed_items List.length] in Hfuel.
  - (* both cells hold a record *)
    change (py_lt strptime (Some ra) (Some rb)) with (__lt__ strptime ra (Some rb)).
    change (merge_feeds strptime (cell_feed (Some ra) ga) (cell_feed (Some rb) gb))
      with (match __lt__ strptime ra (Some rb) with
            | inl e => ([], Raised e)
            | inr true =>
                emit (SideA, ra)
                  (merge_feeds strptime (feed_of_gen ga) (cell_feed (Some rb) gb))
            | inr false =>
                emit (SideB, rb)
                  (merge_feeds strptime (cell_feed (Some ra) ga) (feed_of_gen gb))
            end).
    destruct (__lt__ strptime ra (Some rb)) as [e|[|]]; [reflexivity| |].
    + unfold advance_a; cbn [log_a_records log_b_record log_b_records].
      pose proof (next_feed ga) as Hn.
      destruct (next ga) as [[r| |e] g']; rewrite Hn in *;
        cbn [feed_items List.length] in Hfuel;
      unfold Ret, Raise; cbv beta iota.
      * rewrite IH by (cbn; lia). reflexivity.
      * rewrite IH by (cbn; lia). reflexivity.
      * now rewrite merge_feeds_error_l.
    + unfold advance_b; cbn [log_b_records log_a_record log_a_records].
      pose proof (next_feed gb) as Hn.
      destruct (next gb) as [[r| |e] g']; rewrite Hn in *;
        cbn [feed_items List.length] in Hfuel;
      unfold Ret, Raise; cbv beta iota.
      * rewrite IH by (cbn; lia). reflexivity.
      * rewrite IH by (cbn; lia). reflexivity.
      * reflexivity.
  - (* B is exhausted *)
    cbn [py_lt __lt__ Ret].
    unfold advance_a; cbn [log_a_records log_b_record log_b_records].
    pose proof (next_feed ga) as Hn.
    destruct (next ga) as [[r| |e] g']; cbn [cell_feed]; rewrite Hn in *;
      cbn [feed_items List.length] in Hfuel;
      unfold Ret, Raise; cbv beta iota.
    + rewrite IH by (cbn; lia). reflexivity.
    + rewrite IH by (cbn; lia). reflexivity.
    + reflexivity.
  - (* A is exhausted *)
    cbn [py_lt __gt__ Ret].
    unfold advance_b; cbn [log_b_records log_a_record log_a_records].
    pose proof (next_feed gb) as Hn.
    destruct (next gb) as [[r| |e] g']; cbn [cell_feed]; rewrite Hn in *;
      cbn [feed_items List.length] in Hfuel;
      unfold Ret, Raise; cbv beta iota.
    + rewrite IH by (cbn; lia). reflexivity.
    + rewrite IH by (cbn; lia). reflexivity.
    + reflexivity.
  - reflexivity.
Qed.

Lemma merge_from_replay (fuel : nat) (pa pb : Path) :
  (enough_fuel pa pb <= fuel)%nat ->
  merge_from strptime fuel pa pb =
  merge_start strptime (feed_of_gen (_get_record pa)) (feed_of_gen (_get_record pb)).
Proof.
  unfold enough_fuel, merge_from. intros Hfuel.
  pose proof (next_feed (_get_record pa)) as Ha.
  pose proof (feed_of_gen_size (_get_record pa)) as Sa.
  pose proof (next_feed (_get_record pb)) as Hb.
  pose proof (feed_of_gen_size (_get_record pb)) as Sb.
  simpl pending in Sa, Sb.
  destruct (next (_get_record pa)) as [[ra| |e] ga]; rewrite Ha in *;
    [|reflexivity|reflexivity].
  destruct (next (_get_record pb)) as [[rb| |e] gb]; rewrite Hb in *;
    [|reflexivity|reflexivity].
  rewrite loop_replay by (simpl in *; lia). reflexivity.
Qed.

Lemma merge_trace_replay (pa pb : Path) :
  merge_trace strptime pa pb =
  merge_start strptime (feed_of_gen (_get_record pa)) (feed_of_gen (_get_record pb)).
Proof. apply merge_from_replay. lia. Qed.

(** ** What the replayed loop yields *)

Lemma merge_feeds_outcome : forall fa fb,
  snd (merge_feeds strptime fa fb) <> OutOfFuel.
Proof.
  apply (merge_feeds_cases (fun _ _ res => snd res <> OutOfFuel));
    simpl; intros; auto; discriminate.
Qed.

(** Either side's records leave in their own order, without gaps. *)
Lemma merge_feeds_prefix : forall fa fb,
  (exists rest,
      feed_items fa = emitted_from SideA (fst (merge_feeds strptime fa fb)) ++ rest)
  /\ (exists rest,
      feed_items fb = emitted_from SideB (fst (merge_feeds strptime fa fb)) ++ rest).
Proof.
  apply (merge_feeds_cases (fun fa fb res =>
    (exists rest, feed_items fa = emitted_from SideA (fst res) ++ rest) /\
    (exists rest, feed_items fb = emitted_from SideB (fst res) ++ rest)));
    simpl; intros; eauto.
  - destruct H as [[ra Ha] [rb' Hb]]. split; [eauto|].
    exists rb'. now rewrite Hb at 1.
  - destruct H as [[ra' Ha] [rb Hb]]. split; [|eauto].
    exists ra'. now rewrite Ha at 1.
  - destruct H0 as [[ra' Ha] [rb' Hb]]. split; [|eauto].
    exists ra'. now rewrite Ha at 1.
  - destruct H0 as [[ra' Ha] [rb' Hb]]. split; [eauto|].
    exists rb'. now rewrite Hb at 1.
Qed.

(** A run that returns has drained both feeds, and neither held an
    exception. *)
Lemma merge_feeds_done : forall fa fb,
  snd (merge_feeds strptime fa fb) = Done ->
  feed_error fa = None /\ feed_error fb = None /\
  emitted_from SideA (fst (merge_feeds strptime fa fb)) = feed_items fa /\
  emitted_from SideB (fst (merge_feeds strptime fa fb)) = feed_items fb.
Proof.
  apply (merge_feeds_cases (fun fa fb res =>
    snd res = Done ->
    feed_error fa = None /\ feed_error fb = None /\
    emitted_from SideA (fst res) = feed_items fa /\
    emitted_from SideB (fst res) = feed_items fb));
    simpl; intros; try discriminate; auto.
  - destruct (H H0) as (? & ? & ? & ?). repeat split; congruence.
  - destruct (H H0) as (? & ? & ? & ?). repeat split; congruence.
  - destruct (H0 H1) as (? & ? & ? & ?). repeat split; congruence.
  - destruct (H0 H1) as (? & ? & ? & ?). repeat split; congruence.
Qed.

(** The first record yielded is the first record of one of the feeds. *)
Lemma merge_feeds_head : forall fa fb r,
  hd_error (map snd (fst (merge_feeds strptime fa fb))) = Some r ->
  hd_error (feed_items fa) = Some r \/ hd_error (feed_items fb) = Some r.
Proof.
  apply (merge_feeds_cases (fun fa fb res => forall r,
    hd_error (map snd (fst res)) = Some r ->
    hd_error (feed_items fa) = Some r \/ hd_error (feed_items fb) = Some r));
    simpl; intros; try discriminate; auto.
Qed.

(** Once A has ended, what is left of B leaves as it is; no timestamp is
    looked at. *)
Lemma merge_feeds_end_l (fb : Feed) :
  merge_feeds strptime FeedEnd fb =
  (map (pair SideB) (feed_items fb),
   match feed_error fb with Some e => Raised e | None => Done end).
Proof.
  induction fb as [|rb fb IH|e]; simpl; try reflexivity.
  change ((fix merge_b (fb0 : Feed) : list Emitted * Outcome :=
             match fb0 with
             | FeedEnd => ([], Done)
             | FeedItem rb0 fb' => emit (SideB, rb0) (merge_b fb')
             | FeedError e => ([], Raised e)
             end) fb) with (merge_feeds strptime FeedEnd fb).
  now rewrite IH.
Qed.

Lemma merge_feeds_end_r (fa : Feed) :
  merge_feeds strptime fa FeedEnd =
  (map (pair SideA) (feed_items fa),
   match feed_error fa with Some e => Raised e | None => Done end).
Proof.
  induction fa as [|ra fa IH|e]; simpl; try reflexivity.
  now rewrite IH.
Qed.

(** ** Order of the merged sequence *)

Lemma merge_feeds_sorted : forall fa fb,
  sorted_by_timestamp strptime (feed_items fa) = true ->
  sorted_by_timestamp strptime (feed_items fb) = true ->
  sorted_by_timestamp strptime (map snd (fst (merge_feeds strptime fa fb))) = true.
Proof.
  apply (merge_feeds_cases (fun fa fb res =>
    sorted_by_timestamp strptime (feed_items fa) = true ->
    sorted_by_timestamp strptime (feed_items fb) = true ->
    sorted_by_timestamp strptime (map snd (fst res)) = true));
    try (intros; reflexivity).
  - (* A ended *)
    intros rb fb' IH Ha Hb. cbn [emit fst snd map feed_items] in *.
    apply sorted_cons; [|eauto using sorted_tail].
    intros r2 Hr2. apply merge_feeds_head in Hr2 as [Hr2|Hr2];
      [discriminate|]. eapply sorted_head; eauto.
  - (* B ended *)
    intros ra fa' IH Ha Hb. cbn [emit fst snd map feed_items] in *.
    apply sorted_cons; [|eauto using sorted_tail].
    intros r2 Hr2. apply merge_feeds_head in Hr2 as [Hr2|Hr2];
      [|discriminate]. eapply sorted_head; eauto.
  - (* A's record is strictly earlier *)
    intros ra fa' rb fb' Hlt IH Ha Hb. cbn [emit fst snd map feed_items] in *.
    apply sorted_cons; [|eauto using sorted_tail].
    intros r2 Hr2. apply merge_feeds_head in Hr2 as [Hr2|Hr2].
    + eapply sorted_head; eauto.
    + injection Hr2 as <-. apply ts_ltb_leb. now apply lt_true_ts_ltb.
  - (* B's record is earlier or equal *)
    intros ra fa' rb fb' Hlt IH Ha Hb. cbn [emit fst snd map feed_items] in *.
    apply sorted_cons; [|eauto using sorted_tail].
    intros r2 Hr2. apply merge_feeds_head in Hr2 as [Hr2|Hr2].
    + injection Hr2 as <-. now apply lt_false_ts_leb.
    + eapply sorted_head; eauto.
Qed.

(** A record of B that leaves after a record of A is strictly later. *)
Lemma merge_feeds_b_after_a : forall fa fb,
  sorted_by_timestamp strptime (feed_items fa) = true ->
  sorted_by_timestamp strptime (feed_items fb) = true ->
  forall pre ra post rb,
    fst (merge_feeds strptime fa fb) = pre ++ (SideA, ra) :: post ->
    In (SideB, rb) post ->
    ts_ltb strptime ra rb = true.
Proof.
  apply (merge_feeds_cases (fun fa fb res =>
    sorted_by_timestamp strptime (feed_items fa) = true ->
    sorted_by_timestamp strptime (feed_items fb) = true ->
    forall pre ra post rb,
      fst res = pre ++ (SideA, ra) :: post ->
      In (SideB, rb) post ->
      ts_ltb strptime ra rb = true));
    try (intros; cbn [fst] in *;
         match goal with
         | H : [] = ?pre ++ _ :: _ |- _ => now destruct pre
         end).
  - (* A ended *)
    intros rb0 fb' IH Ha Hb pre ra post rb Hout Hin.
    cbn [emit fst snd feed_items] in *.
    destruct pre as [|x pre]; [discriminate|]. injection Hout as _ Hout.
    eapply IH; eauto using sorted_tail.
  - (* B ended: nothing of B is left to leave *)
    intros ra0 fa' IH Ha Hb pre ra post rb Hout Hin.
    cbn [emit fst snd feed_items] in *.
    destruct pre as [|x pre].
    + injection Hout as _ Hout. subst post.
      apply emitted_from_In in Hin.
      destruct (merge_feeds_prefix fa' FeedEnd) as [_ [rest Hrest]].
      simpl in Hrest.
      destruct (emitted_from SideB (fst (merge_feeds strptime fa' FeedEnd)));
        [contradiction|discriminate].
    + injection Hout as _ Hout. eapply IH; eauto using sorted_tail.
  - (* A's record is strictly earlier than B's lookahead *)
    intros ra0 fa' rb0 fb' Hlt IH Ha Hb pre ra post rb Hout Hin.
    cbn [emit fst snd feed_items] in *.
    destruct pre as [|x pre].
    + injection Hout as Hra Hout. subst post ra0.
      apply emitted_from_In in Hin.
      destruct (merge_feeds_prefix fa' (FeedItem rb0 fb')) as [_ [rest Hrest]].
      cbn [feed_items] in Hrest.
      assert (In rb (rb0 :: feed_items fb')) as Hin'
        by (rewrite Hrest; apply in_or_app; now left).
      apply lt_true_ts_ltb in Hlt.
      destruct Hin' as [->|Hin']; [exact Hlt|].
      apply ts_ltb_leb_trans with rb0; [exact Hlt|].
      eapply sorted_head_le; eauto.
    + injection Hout as _ Hout. eapply IH; eauto using sorted_tail.
  - (* B's record leaves first *)
    intros ra0 fa' rb0 fb' Hlt IH Ha Hb pre ra post rb Hout Hin.
    cbn [emit fst snd feed_items] in *.
    destruct pre as [|x pre]; [discriminate|]. injection Hout as _ Hout.
    eapply IH; eauto using sorted_tail.
Qed.

(** ** Whole runs *)

Lemma merge_start_outcome (fa fb : Feed) :
  snd (merge_start strptime fa fb) <> OutOfFuel.
Proof.
  unfold merge_start. destruct fa; try discriminate.
  destruct fb; try discriminate. apply merge_feeds_outcome.
Qed.

(** A run that returns started from two non-empty feeds. *)
Lemma merge_start_done (fa fb : Feed) :
  snd (merge_start strptime fa fb) = Done ->
  merge_start strptime fa fb = merge_feeds strptime fa fb /\
  feed_items fa <> [] /\ feed_items fb <> [].
Proof.
  unfold merge_start. destruct fa; try discriminate.
  destruct fb; try discriminate. intros _. repeat split; discriminate.
Qed.

Lemma merge_start_prefix (fa fb : Feed) :
  (exists rest,
      feed_items fa = emitted_from SideA (fst (merge_start strptime fa fb)) ++ rest)
  /\ (exists rest,
      feed_items fb = emitted_from SideB (fst (merge_start strptime fa fb)) ++ rest).
Proof.
  unfold merge_start. destruct fa; simpl; eauto.
  destruct fb; simpl; eauto.
  apply (merge_feeds_prefix (FeedItem r fa) (FeedItem r0 fb)).
Qed.

Lemma feed_of_rows_full (rows : list Row) :
  feed_error (feed_of_rows rows) = None ->
  List.length (feed_items (feed_of_rows rows)) = List.length rows.
Proof.
  induction rows as [|row rest IH]; simpl; [reflexivity|].
  destruct (decode_row row); simpl; [discriminate|]. auto.
Qed.

Lemma feed_of_path_full (p : Path) :
  feed_error (feed_of_gen (_get_record p)) = None ->
  feed_items (feed_of_gen (_get_record p)) <> [] ->
  List.length (feed_items (feed_of_gen (_get_record p))) = List.length (path_rows p).
Proof.
  simpl. destruct (_check_path_to_log p) as [e|[|]]; simpl; try discriminate.
  - intros H _. now apply feed_of_rows_full.
  - intros _ H. now contradiction H.
Qed.

(** A row that does not decode stops the feed at or before its position. *)
Lemma feed_of_rows_bad (rows : list Row) : forall n bad e,
  nth_error rows n = Some bad -> decode_row bad = inl e ->
  feed_error (feed_of_rows rows) <> None /\
  (List.length (feed_items (feed_of_rows rows)) <= n)%nat.
Proof.
  induction rows as [|row rest IH]; intros [|n] bad e Hn Hbad; simpl in *;
    try discriminate.
  - injection Hn as ->. rewrite Hbad. simpl. split; [discriminate|lia].
  - destruct (decode_row row); simpl; [split; [discriminate|lia]|].
    destruct (IH n bad e Hn Hbad). split; [assumption|lia].
Qed.

Lemma check_path_ret (p : Path) (b : bool) :
  _check_path_to_log p = inr b -> b = true.
Proof.
  unfold _check_path_to_log.
  destruct (negb (path_exists p && path_is_file p)); [discriminate|].
  destruct (negb (String.eqb (lower (path_suffix p)) ".jsonl"));
    [discriminate|]. now intros [= <-].
Qed.

Lemma feed_of_path_bad (p : Path) (n : nat) (bad : Row) (e : exn) :
  nth_error (path_rows p) n = Some bad -> decode_row bad = inl e ->
  feed_error (feed_of_gen (_get_record p)) <> None /\
  (List.length (feed_items (feed_of_gen (_get_record p))) <= n)%nat.
Proof.
  intros Hn Hbad. simpl.
  destruct (_check_path_to_log p) as [e'|b] eqn:Hc; simpl.
  - split; [discriminate|lia].
  - apply check_path_ret in Hc. subst b. eapply feed_of_rows_bad; eauto.
Qed.

(** The errors of the check, and when they arise. *)
Lemma check_invalid (p : Path) :
  invalid_input p = true ->
  exists e, InvalidInputError e /\ _check_path_to_log p = Raise e.
Proof.
  unfold invalid_input, _check_path_to_log, InvalidInputError.
  destruct (path_exists p), (path_is_file p); simpl; eauto.
  destruct (String.eqb (lower (path_suffix p)) ".jsonl"); simpl;
    [discriminate|eauto].
Qed.

Lemma check_valid (p : Path) :
  invalid_input p = false -> _check_path_to_log p = Ret true.
Proof.
  unfold invalid_input, _check_path_to_log.
  destruct (path_exists p), (path_is_file p); simpl; try discriminate.
  now destruct (String.eqb (lower (path_suffix p)) ".jsonl").
Qed.

(** A key that is no member of the object is not found. *)
Lemma dict_get_missing (f : string) (members : list (string * json)) :
  ~ In f (map fst members) -> dict_get f members = None.
Proof.
  induction members as [|[k v] rest IH]; simpl; [reflexivity|].
  intros Hnot. rewrite IH by tauto.
  destruct (String.eqb_spec f k) as [->|_]; [|reflexivity]. tauto.
Qed.

(** A structurally invalid row makes the reader raise its exception. *)
Lemma invalid_row_raises (bad : Row) (e : exn) :
  structurally_invalid bad e -> decode_row bad = inl e.
Proof.
  intros [msg doc pos|members f Hf Hmiss]; [reflexivity|].
  unfold decode_row, json_loads, bind, Ret, LogRecord_init.
  destruct (forallb _ members); [|reflexivity].
  simpl in Hf. destruct Hf as [<-|[<-|[<-|[]]]];
    rewrite (dict_get_missing _ _ Hmiss).
  - reflexivity.
  - now destruct (dict_get "log_level" members).
  - now destruct (dict_get "log_level" members),
                 (dict_get "timestamp" members).
Qed.

(** When every row before a row that does not decode is read, the feed ends
    with the exception of that row. *)
Lemma feed_of_rows_bad_exact (rows : list Row) : forall n bad e,
  nth_error rows n = Some bad -> decode_row bad = inl e ->
  List.length (feed_items (feed_of_rows rows)) = n ->
  feed_error (feed_of_rows rows) = Some e.
Proof.
  induction rows as [|row rest IH]; intros [|n] bad e Hn Hbad Hlen;
    simpl in *; try discriminate.
  - injection Hn as ->. now rewrite Hbad.
  - destruct (decode_row row); simpl in *; [discriminate|].
    apply (IH n bad e Hn Hbad). lia.
Qed.

Lemma feed_of_path_bad_exact (p : Path) (n : nat) (bad : Row) (e : exn) :
  invalid_input p = false ->
  nth_error (path_rows p) n = Some bad -> decode_row bad = inl e ->
  List.length (feed_items (feed_of_gen (_get_record p))) = n ->
  feed_error (feed_of_gen (_get_record p)) = Some e.
Proof.
  intros Hvalid. simpl. rewrite (check_valid p Hvalid).
  apply feed_of_rows_bad_exact.
Qed.

(** A side whose feed ends with an exception and whose records have all
    been yielded ends the loop with that exception. *)
Lemma merge_feeds_raises_a : forall fa fb e,
  feed_error fa = Some e ->
  List.length (emitted_from SideA (fst (merge_feeds strptime fa fb))) =
  List.length (feed_items fa) ->
  snd (merge_feeds strptime fa fb) = Raised e.
Proof.
  intros fa fb.
  apply (merge_feeds_cases (fun fa fb res => forall e,
    feed_error fa = Some e ->
    List.length (emitted_from SideA (fst res)) = List.length (feed_items fa) ->
    snd res = Raised e)); simpl; intros; try discriminate; auto.
  congruence.
Qed.

Lemma merge_feeds_raises_b : forall fa fb e,
  feed_error fb = Some e ->
  (forall e', fa <> FeedError e') \/ feed_items fb <> [] ->
  List.length (emitted_from SideB (fst (merge_feeds strptime fa fb))) =
  List.length (feed_items fb) ->
  snd (merge_feeds strptime fa fb) = Raised e.
Proof.
  intros fa fb.
  apply (merge_feeds_cases (fun fa fb res => forall e,
    feed_error fb = Some e ->
    (forall e', fa <> FeedError e') \/ feed_items fb <> [] ->
    List.length (emitted_from SideB (fst res)) = List.length (feed_items fb) ->
    snd res = Raised e)); simpl; intros; try discriminate; try congruence.
  - destruct H0 as [Hne|Hne]; [now contradiction (Hne e)|].
    destruct (feed_items fb0); [now contradiction Hne|discriminate].
  - apply H; auto. left. discriminate.
  - apply H0; auto. right. discriminate.
  - apply H0; auto. left. discriminate.
Qed.

Lemma merge_start_raises_a (fa fb : Feed) (e : exn) :
  feed_error fa = Some e ->
  List.length (emitted_from SideA (fst (merge_start strptime fa fb))) =
  List.length (feed_items fa) ->
  snd (merge_start strptime fa fb) = Raised e.
Proof.
  unfold merge_start. destruct fa as [|ra fa'|e0]; simpl; try discriminate.
  - destruct fb as [|rb fb'|e1]; try discriminate.
    apply (merge_feeds_raises_a (FeedItem ra fa') (FeedItem rb fb')).
  - congruence.
Qed.

Lemma merge_start_raises_b (fa fb : Feed) (e : exn) :
  feed_error fb = Some e ->
  feed_items fb <> [] ->
  List.length (emitted_from SideB (fst (merge_start strptime fa fb))) =
  List.length (feed_items fb) ->
  snd (merge_start strptime fa fb) = Raised e.
Proof.
  intros He Hne. unfold merge_start.
  destruct fa as [|ra fa'|e0]; simpl;
    try (destruct (feed_items fb); [now contradiction Hne|discriminate]).
  destruct fb as [|rb fb'|e1]; try now contradiction Hne.
  intros Hlen.
  apply (merge_feeds_raises_b (FeedItem ra fa') (FeedItem rb fb')); auto.
Qed.

(** Two feeds that end without an exception and whose records all carry a
    timestamp that parses are merged to the end. *)
Lemma merge_feeds_returns : forall fa fb,
  feed_error fa = None -> feed_error fb = None ->
  (forall r, In r (feed_items fa) \/ In r (feed_items fb) ->
             exists t, __timestamp strptime r = inr t) ->
  snd (merge_feeds strptime fa fb) = Done.
Proof.
  apply (merge_feeds_cases (fun fa fb res =>
    feed_error fa = None -> feed_error fb = None ->
    (forall r, In r (feed_items fa) \/ In r (feed_items fb) ->
               exists t, __timestamp strptime r = inr t) ->
    snd res = Done)); simpl; intros; try discriminate; auto.
  - apply H; auto. intros r [[]|Hr]. apply H2. auto.
  - apply H; auto. intros r [Hr|[]]. apply H2. auto.
  - exfalso. destruct (H2 ra) as [ta Hta]; [auto|].
    destruct (H2 rb) as [tb Htb]; [auto|].
    unfold __lt__, bind in H. rewrite Hta, Htb in H. discriminate.
  - apply H0; auto. intros r [Hr|Hr]; apply H3; auto.
  - apply H0; auto. intros r [Hr|Hr]; apply H3; auto.
Qed.

(** The loop test fails exactly when both lookahead cells are empty. *)
Lemma loop_step_halt (st : MergeState) :
  loop_step strptime st = Halt <->
  log_a_record st = None /\ log_b_record st = None.
Proof.
  unfold loop_step.
  destruct (log_a_record st) as [ra|], (log_b_record st) as [rb|].
  - split; [|intros [? _]; discriminate].
    destruct (py_lt strptime (Some ra) (Some rb)) as [e|[|]]; discriminate.
  - split; [discriminate|intros [? _]; discriminate].
  - split; [discriminate|intros [_ ?]; discriminate].
  - split; auto.
Qed.

(** One turn of the loop, case by case. *)
Lemma loop_step_table (st : MergeState) :
  loop_step strptime st =
  match log_a_record st, log_b_record st with
  | None, None => Halt
  | Some ra, None => Emit SideA ra (advance_a st)
  | None, Some rb => Emit SideB rb (advance_b st)
  | Some ra, Some rb =>
      match __timestamp strptime ra, __timestamp strptime rb with
      | inl e, _ => Fail e
      | inr _, inl e => Fail e
      | inr ta, inr tb =>
          if datetime_ltb ta tb
          then Emit SideA ra (advance_a st)
          else Emit SideB rb (advance_b st)
      end
  end.
Proof.
  unfold loop_step.
  destruct (log_a_record st) as [ra|], (log_b_record st) as [rb|].
  - rewrite py_lt_records.
    destruct (__timestamp strptime ra) as [e|ta]; [reflexivity|].
    destruct (__timestamp strptime rb) as [e|tb]; [reflexivity|].
    unfold Ret. now destruct (datetime_ltb ta tb).
  - now rewrite py_lt_record_None.
  - now rewrite py_lt_None_record.
  - reflexivity.
Qed.

(** The loop ends at once, with nothing yielded, exactly when both cells
    are empty. *)
Lemma loop_done_at_once (fuel : nat) (st : MergeState) :
  loop strptime (S fuel) st = ([], Done) <->
  log_a_record st = None /\ log_b_record st = None.
Proof.
  rewrite <- loop_step_halt. cbn [loop].
  destruct (loop_step strptime st) as [|e|s r [e|st']]; unfold emit;
    split; intros H; try discriminate H; reflexivity.
Qed.

(** The loop ends with an exception and nothing yielded only when the
    comparison of two lookahead records raises. *)
Lemma loop_raised_at_once (fuel : nat) (st : MergeState) (e : exn) :
  loop strptime (S fuel) st = ([], Raised e) ->
  exists ra rb,
    log_a_record st = Some ra /\ log_b_record st = Some rb /\
    (__timestamp strptime ra = inl e \/ __timestamp strptime rb = inl e).
Proof.
  cbn [loop]. rewrite loop_step_table.
  destruct (log_a_record st) as [ra|], (log_b_record st) as [rb|].
  - destruct (__timestamp strptime ra) as [ea|ta] eqn:Ha.
    + intros [= <-]. exists ra, rb. auto.
    + destruct (__timestamp strptime rb) as [eb|tb] eqn:Hb.
      * intros [= <-]. exists ra, rb. auto.
      * destruct (datetime_ltb ta tb);
          [destruct (advance_a st)|destruct (advance_b st)];
          unfold emit; discriminate.
  - destruct (advance_a st); unfold emit; discriminate.
  - destruct (advance_b st); unfold emit; discriminate.
  - discriminate.
Qed.

(** A run that returns, in terms of the two input sequences. *)
Lemma merge_trace_done (pa pb : Path) (A B : list LogRecord)
  (out : list Emitted) :
  drain (_get_record pa) = inr A ->
  drain (_get_record pb) = inr B ->
  merge_trace strptime pa pb = (out, Done) ->
  out = fst (merge_feeds strptime (feed_of_list A) (feed_of_list B)) /\
  emitted_from SideA out = A /\ emitted_from SideB out = B.
Proof.
  intros HA HB Hrun. rewrite merge_trace_replay in Hrun.
  rewrite (drain_feed _ _ HA), (drain_feed _ _ HB) in Hrun.
  assert (snd (merge_start strptime (feed_of_list A) (feed_of_list B)) = Done)
    as Hdone by now rewrite Hrun.
  destruct (merge_start_done _ _ Hdone) as (Heq & _ & _).
  rewrite Heq in Hrun, Hdone.
  destruct (merge_feeds_done _ _ Hdone) as (_ & _ & HfA & HfB).
  rewrite Hrun in HfA, HfB. simpl in HfA, HfB.
  rewrite feed_items_of_list in HfA, HfB.
  repeat split; auto. now rewrite Hrun.
Qed.

(** ** The claims *)

(** C1. Sortedness: when both input sequences are sorted non-decreasing by
    parsed timestamp and the merge returns without an exception, every
    adjacent pair of the output is in non-decreasing order of parsed
    timestamp. *)
Theorem C1_output_sorted (pa pb : Path) (A B out : list LogRecord) :
  drain (_get_record pa) = inr A ->
  drain (_get_record pb) = inr B ->
  sorted_by_timestamp strptime A = true ->
  sorted_by_timestamp strptime B = true ->
  _get_output_record strptime pa pb = (out, Done) ->
  sorted_by_timestamp strptime out = true.
Proof.
  intros HA HB HsA HsB Hrun. unfold _get_output_record in Hrun.
  destruct (merge_trace strptime pa pb) as [tagged o] eqn:Htrace.
  simpl in Hrun. injection Hrun as <- ->.
  destruct (merge_trace_done pa pb A B tagged HA HB Htrace) as (-> & _ & _).
  apply merge_feeds_sorted; now rewrite feed_items_of_list.
Qed.

(** C2. Completeness: when the merge returns without an exception, its
    output has as many records as the two inputs together and is, as a
    multiset of records (all three fields), the union of the two inputs. *)
Theorem C2_output_complete (pa pb : Path) (A B out : list LogRecord) :
  drain (_get_record pa) = inr A ->
  drain (_get_record pb) = inr B ->
  _get_output_record strptime pa pb = (out, Done) ->
  List.length out = (List.length A + List.length B)%nat /\
  Permutation out (A ++ B).
Proof.
  intros HA HB Hrun. unfold _get_output_record in Hrun.
  destruct (merge_trace strptime pa pb) as [tagged o] eqn:Htrace.
  simpl in Hrun. injection Hrun as <- ->.
  destruct (merge_trace_done pa pb A B tagged HA HB Htrace) as (_ & HfA & HfB).
  split.
  - pose proof (emitted_from_length tagged) as Hlen.
    rewrite HfA, HfB in Hlen. rewrite length_map. exact Hlen.
  - subst A B. apply emitted_from_perm.
Qed.

(** C3 (what the code does instead). An existing log file without rows on
    either side makes the merge raise RuntimeError and yield nothing: the
    first [next] of lines 99-100 is not guarded, unlike those of lines
    105-108 and 111-114, so the other side's records are not passed
    through. *)
Theorem C3_empty_side_raises (pa pb : Path) :
  drain (_get_record pa) = inr [] \/
  (drain (_get_record pb) = inr [] /\
   exists ra, fst (next (_get_record pa)) = Item ra) ->
  _get_output_record strptime pa pb = ([], Raised RuntimeError).
Proof.
  intros H. unfold _get_output_record. rewrite merge_trace_replay.
  destruct H as [Ha|[Hb [ra Hra]]].
  - now rewrite (drain_feed _ _ Ha).
  - rewrite (drain_feed _ _ Hb).
    pose proof (next_feed (_get_record pa)) as Hn.
    destruct (next (_get_record pa)) as [ia ga]. simpl in Hra. subst ia.
    now rewrite Hn.
Qed.

(** C4 (as the code has it). Ties go to the right source: when both inputs
    are sorted and the merge returns, a record of A and a record of B with
    equal parsed timestamps leave with the record of B first, never with the
    record of A first. *)
Theorem C4_ties_favor_right (pa pb : Path) (A B : list LogRecord)
  (out : list Emitted) :
  drain (_get_record pa) = inr A ->
  drain (_get_record pb) = inr B ->
  sorted_by_timestamp strptime A = true ->
  sorted_by_timestamp strptime B = true ->
  merge_trace strptime pa pb = (out, Done) ->
  ties_favor_right strptime out.
Proof.
  intros HA HB HsA HsB Hrun.
  destruct (merge_trace_done pa pb A B out HA HB Hrun) as (Hout & _ & _).
  assert (forall pre ra post rb,
             out = pre ++ (SideA, ra) :: post -> In (SideB, rb) post ->
             ts_ltb strptime ra rb = true) as Hlate.
  { intros pre ra post rb Hsplit Hin.
    apply (merge_feeds_b_after_a (feed_of_list A) (feed_of_list B))
      with (pre := pre) (post := post); rewrite ?feed_items_of_list; auto.
    now rewrite <- Hout. }
  intros ra rb HinA HinB Htie. apply ts_eqb_not_ltb in Htie. split.
  - destruct (in_split _ _ HinA) as (pre & post & Hsplit).
    rewrite Hsplit in HinB. apply in_app_or in HinB as [Hpre|[Hmid|Hpost]].
    + destruct (in_split _ _ Hpre) as (p1 & p2 & ->).
      exists p1, p2, post. rewrite Hsplit, <- app_assoc. reflexivity.
    + discriminate.
    + rewrite (Hlate pre ra post rb Hsplit Hpost) in Htie. discriminate.
  - intros (pre & mid & post & Hsplit).
    rewrite (Hlate pre ra (mid ++ (SideB, rb) :: post) rb Hsplit) in Htie;
      [discriminate|]. apply in_or_app. right. now left.
Qed.


(** C6 (as the code has it). A row that is bad JSON, or a JSON object that
    lacks one of the three fields, fails the read when the reader reaches
    it, with the JSONDecodeError that json.loads raised or with TypeError
    respectively.  The line number the exception carries, if any, is a line
    of the row's own text: a TypeError carries none.  The failure aborts
    the merge: the merge ends with an exception and has yielded at most the
    records that precede the bad row in its file, so the row is not
    skipped; and once it has yielded all of these, it ends with the
    exception of the bad row.  A row with three string fields is read as a
    record whatever its timestamp is. *)
Theorem C6_malformed_row_aborts (pa pb : Path) (s : Side) (n : nat)
  (bad : Row) (e : exn) :
  nth_error (path_rows (side_path s pa pb)) n = Some bad ->
  structurally_invalid bad e ->
  decode_row bad = inl e /\
  (forall rest, next (GenSuspended (bad :: rest)) = (Error e, GenClosed)) /\
  lineno e =
  match bad with
  | Raises (JSONDecodeError _ doc pos) => Some (S (count_newlines doc pos))
  | _ => None
  end /\
  (exists e', snd (merge_trace strptime pa pb) = Raised e') /\
  (List.length (emitted_from s (fst (merge_trace strptime pa pb))) <= n)%nat /\
  (invalid_input (side_path s pa pb) = false ->
   s = SideA \/ (0 < n)%nat ->
   List.length (emitted_from s (fst (merge_trace strptime pa pb))) = n ->
   snd (merge_trace strptime pa pb) = Raised e) /\
  (forall level ts msg : string,
      decode_row (row_of level ts msg) = Ret (rec_of level ts msg)).
Proof.
  intros Hn Hinv. pose proof (invalid_row_raises bad e Hinv) as Hbad.
  split; [exact Hbad|].
  split; [intros rest; simpl; now rewrite Hbad|].
  split; [now destruct Hinv|].
  rewrite merge_trace_replay.
  set (fa := feed_of_gen (_get_record pa)).
  set (fb := feed_of_gen (_get_record pb)).
  destruct (feed_of_path_bad _ _ _ _ Hn Hbad) as [Herr Hsize].
  destruct (merge_start_prefix fa fb) as [[ra HprefA] [rb HprefB]].
  split; [|split; [|split; [|reflexivity]]].
  - destruct (snd (merge_start strptime fa fb)) as [|e'|] eqn:Ho.
    + exfalso. destruct (merge_start_done _ _ Ho) as (Heq & _ & _).
      rewrite Heq in Ho.
      destruct (merge_feeds_done _ _ Ho) as (HeA & HeB & _ & _).
      destruct s; cbn [side_path] in Herr; [apply Herr, HeA|apply Herr, HeB].
    + now exists e'.
    + now destruct (merge_start_outcome fa fb).
  - destruct s; cbn [side_path] in Hsize.
    + fold fa in Hsize. rewrite HprefA, length_app in Hsize. lia.
    + fold fb in Hsize. rewrite HprefB, length_app in Hsize. lia.
  - intros Hvalid Hside Hlen.
    destruct s; cbn [side_path] in Hsize, Hvalid, Hn.
    + fold fa in Hsize.
      assert (List.length (feed_items fa) = n) as Hall
        by (rewrite HprefA, length_app in Hsize |- *; lia).
      apply merge_start_raises_a; [|now rewrite Hall].
      now apply (feed_of_path_bad_exact pa n bad e).
    + fold fb in Hsize.
      assert (List.length (feed_items fb) = n) as Hall
        by (rewrite HprefB, length_app in Hsize |- *; lia).
      destruct Hside as [Hs|Hpos]; [discriminate|].
      apply merge_start_raises_b; [| |now rewrite Hall].
      * now apply (feed_of_path_bad_exact pb n bad e).
      * intros Hnil. rewrite Hnil in Hall. simpl in Hall. lia.
Qed.

(** C7 (as the code has it). A path that does not exist, is not a regular
    file, or does not end in .jsonl (up to case) is refused with
    FileNotFoundError or ValueError, each input being checked when its
    generator is first advanced: an invalid A fails the merge before
    anything is read, an invalid B fails it once the first row of A has been
    read as a record, and nothing is yielded in either case.  B is not
    checked before that: when the first read of A raises, the merge ends
    with that exception whatever B is. *)
Theorem C7_path_validation (pa pb : Path) :
  invalid_input pa = true \/
  (invalid_input pb = true /\ exists ra, fst (next (_get_record pa)) = Item ra) ->
  (exists e, InvalidInputError e /\
             merge_trace strptime pa pb = ([], Raised e)) /\
  (forall pa' pb' e',
      fst (next (_get_record pa')) = Error e' ->
      merge_trace strptime pa' pb' = ([], Raised e')).
Proof.
  intros Hinv. split.
  - unfold merge_trace, merge_from.
    destruct Hinv as [Ha|[Hb [ra Hra]]].
    + destruct (check_invalid pa Ha) as (e & He & Hc).
      exists e. split; [exact He|]. simpl. now rewrite Hc.
    + destruct (check_invalid pb Hb) as (e & He & Hc).
      exists e. split; [exact He|].
      destruct (next (_get_record pa)) as [ia ga]. simpl in Hra. subst ia.
      simpl. now rewrite Hc.
  - intros pa' pb' e' Hfirst. unfold merge_trace, merge_from.
    destruct (next (_get_record pa')) as [ia ga]. simpl in Hfirst.
    now subst ia.
Qed.

(** C8. Termination: the merge of two files always ends, after yielding at
    most one record per row of the two files; any larger iteration budget
    gives the same run; the loop test fails exactly when both lookahead
    cells are exhausted; a merge that returns has yielded one record for
    every row of both files.  The loop returns with nothing more yielded
    exactly when both cells are exhausted; while a cell holds a record it
    yields a record, unless the comparison of two lookahead records raises;
    and the merge of two files that are read to their ends without an
    exception, each with a record, all timestamps parsing, returns. *)
Theorem C8_merge_terminates (pa pb : Path) :
  snd (_get_output_record strptime pa pb) <> OutOfFuel /\
  (List.length (fst (_get_output_record strptime pa pb)) <=
   List.length (path_rows pa) + List.length (path_rows pb))%nat /\
  (forall fuel, (enough_fuel pa pb <= fuel)%nat ->
                merge_from strptime fuel pa pb = merge_trace strptime pa pb) /\
  (forall st, loop_step strptime st = Halt <->
              log_a_record st = None /\ log_b_record st = None) /\
  (snd (_get_output_record strptime pa pb) = Done ->
   List.length (fst (_get_output_record strptime pa pb)) =
   (List.length (path_rows pa) + List.length (path_rows pb))%nat) /\
  (forall fuel st,
      loop strptime (S fuel) st = ([], Done) <->
      log_a_record st = None /\ log_b_record st = None) /\
  (forall fuel st e,
      loop strptime (S fuel) st = ([], Raised e) ->
      exists ra rb,
        log_a_record st = Some ra /\ log_b_record st = Some rb /\
        (__timestamp strptime ra = inl e \/ __timestamp strptime rb = inl e)) /\
  (forall A B,
      drain (_get_record pa) = inr A -> drain (_get_record pb) = inr B ->
      A <> [] -> B <> [] ->
      (forall r, In r (A ++ B) -> exists t, __timestamp strptime r = inr t) ->
      snd (_get_output_record strptime pa pb) = Done).
Proof.
  unfold _get_output_record. cbn [fst snd]. rewrite length_map.
  split; [rewrite merge_trace_replay; apply merge_start_outcome|].
  split.
  { rewrite merge_trace_replay.
    set (fa := feed_of_gen (_get_record pa)).
    set (fb := feed_of_gen (_get_record pb)).
    destruct (merge_start_prefix fa fb) as [[ra HprefA] [rb HprefB]].
    pose proof (feed_of_gen_size (_get_record pa)) as Sa.
    pose proof (feed_of_gen_size (_get_record pb)) as Sb.
    fold fa in Sa. fold fb in Sb. simpl pending in Sa, Sb.
    rewrite HprefA, length_app in Sa. rewrite HprefB, length_app in Sb.
    pose proof (emitted_from_length (fst (merge_start strptime fa fb))) as Hlen.
    unfold Emitted in *. lia. }
  split.
  { intros fuel Hfuel. rewrite merge_trace_replay.
    now apply merge_from_replay. }
  split; [exact loop_step_halt|].
  split.
  { rewrite merge_trace_replay.
    set (fa := feed_of_gen (_get_record pa)).
    set (fb := feed_of_gen (_get_record pb)).
    intros Hdone. destruct (merge_start_done _ _ Hdone) as (Heq & HneA & HneB).
    rewrite Heq in *.
    destruct (merge_feeds_done _ _ Hdone) as (HeA & HeB & HfA & HfB).
    pose proof (emitted_from_length (fst (merge_feeds strptime fa fb))) as Hlen.
    rewrite HfA, HfB in Hlen.
    unfold fa, fb in *.
    rewrite (feed_of_path_full pa HeA HneA), (feed_of_path_full pb HeB HneB)
      in Hlen.
    exact Hlen. }
  split; [exact loop_done_at_once|].
  split; [exact loop_raised_at_once|].
  intros A B HA HB HneA HneB Hts. rewrite merge_trace_replay.
  rewrite (drain_feed _ _ HA), (drain_feed _ _ HB).
  destruct A as [|a A]; [now contradiction HneA|].
  destruct B as [|b B]; [now contradiction HneB|].
  change (merge_start strptime (feed_of_list (a :: A)) (feed_of_list (b :: B)))
    with (merge_feeds strptime (feed_of_list (a :: A)) (feed_of_list (b :: B))).
  apply merge_feeds_returns; rewrite ?feed_error_of_list, ?feed_items_of_list;
    auto.
  intros r Hr. apply Hts. apply in_or_app. exact Hr.
Qed.

(** C9. Determinism: two complete runs of the merge on the same pair of
    files yield the same records in the same order and end the same way,
    and that run is the one [_get_output_record] gives; in particular two
    lookahead records with the same parsed timestamp are always resolved
    the same way, the record of B leaving first. *)
Theorem C9_merge_deterministic (pa pb : Path) (fuel1 fuel2 : nat)
  (run1 run2 : list Emitted * Outcome) :
  (enough_fuel pa pb <= fuel1)%nat ->
  (enough_fuel pa pb <= fuel2)%nat ->
  merge_from strptime fuel1 pa pb = run1 ->
  merge_from strptime fuel2 pa pb = run2 ->
  run1 = run2 /\
  (map snd (fst run1), snd run1) = _get_output_record strptime pa pb /\
  (forall ra rb ga gb t,
      __timestamp strptime ra = inr t -> __timestamp strptime rb = inr t ->
      loop_step strptime (mkMergeState (Some ra) ga (Some rb) gb) =
      Emit SideB rb (advance_b (mkMergeState (Some ra) ga (Some rb) gb))).
Proof.
  intros H1 H2 <- <-.
  rewrite (merge_from_replay fuel1 pa pb H1), (merge_from_replay fuel2 pa pb H2).
  split; [reflexivity|]. split.
  - unfold _get_output_record. now rewrite merge_trace_replay.
  - intros ra rb ga gb t Ha Hb. unfold loop_step. cbn [log_a_record log_b_record].
    rewrite py_lt_records, Ha, Hb, datetime_ltb_irrefl. reflexivity.
Qed.

(** C10. Timestamps are parsed only inside the comparison of two live
    records: once one side is exhausted, the records left on the other side
    are yielded as they are, in order, and the merge returns, whatever their
    timestamps are and whatever the parser would make of them. *)
Theorem C10_no_parse_after_exhaustion (s : Side) (r : LogRecord)
  (g other : RecordGen) (rest : list LogRecord) (fuel : nat) :
  drain g = inr rest ->
  (S (List.length rest) < fuel)%nat ->
  loop strptime fuel (live_state s r g other) =
  (map (pair s) (r :: rest), Done).
Proof.
  intros Hdrain Hfuel. apply drain_feed in Hdrain.
  destruct s; unfold live_state; rewrite loop_replay;
    cbn [log_a_record log_a_records log_b_record log_b_records cell_feed];
    rewrite ?Hdrain; cbn [feed_items]; rewrite ?feed_items_of_list;
    try (simpl; lia).
  - rewrite merge_feeds_end_r. cbn [feed_items feed_error].
    now rewrite feed_items_of_list, feed_error_of_list.
  - rewrite merge_feeds_end_l. cbn [feed_items feed_error].
    now rewrite feed_items_of_list, feed_error_of_list.
Qed.

End MergeProps.

(** * The claims on the sample files *)

Lemma C1_output_sorted_witness :
  drain (_get_record file_ac) = inr records_ac /\
  drain (_get_record file_b) = inr records_b /\
  sorted_by_timestamp strptime_Ymd_HMS records_ac = true /\
  sorted_by_timestamp strptime_Ymd_HMS records_b = true /\
  _get_output_record strptime_Ymd_HMS file_ac file_b = (records_abc, Done) /\
  sorted_by_timestamp strptime_Ymd_HMS records_abc = true.
Proof.
  assert (drain (_get_record file_ac) = inr records_ac) as HA by reflexivity.
  assert (drain (_get_record file_b) = inr records_b) as HB by reflexivity.
  assert (sorted_by_timestamp strptime_Ymd_HMS records_ac = true) as HsA
    by reflexivity.
  assert (sorted_by_timestamp strptime_Ymd_HMS records_b = true) as HsB
    by reflexivity.
  assert (_get_output_record strptime_Ymd_HMS file_ac file_b =
          (records_abc, Done)) as Hrun by reflexivity.
  refine (conj HA (conj HB (conj HsA (conj HsB (conj Hrun _))))).
  exact (C1_output_sorted strptime_Ymd_HMS file_ac file_b records_ac records_b
           records_abc HA HB HsA HsB Hrun).
Defined.

Lemma C2_output_complete_witness :
  List.length records_abc = (List.length records_ac + List.length records_b)%nat /\
  Permutation records_abc (records_ac ++ records_b).
Proof.
  apply (C2_output_complete strptime_Ymd_HMS file_ac file_b); reflexivity.
Defined.

Lemma C3_empty_side_raises_witness :
  _get_output_record strptime_Ymd_HMS file_empty file_b =
  ([], Raised RuntimeError).
Proof.
  apply C3_empty_side_raises. left. reflexivity.
Defined.

(** The same on the other side, and on two empty files. *)
Example empty_right_side_raises :
  _get_output_record strptime_Ymd_HMS file_b file_empty =
  ([], Raised RuntimeError) /\
  _get_output_record strptime_Ymd_HMS file_empty file_empty =
  ([], Raised RuntimeError).
Proof. split; reflexivity. Qed.

(** C4, as stated, fails on two one-record files with the same timestamp:
    both inputs are sorted, the merge returns, and the record of B leaves
    before the record of A. *)
Lemma C4_counterexample :
  drain (_get_record file_tie_a) = inr [rec_tie_a] /\
  drain (_get_record file_tie_b) = inr [rec_tie_b] /\
  sorted_by_timestamp strptime_Ymd_HMS [rec_tie_a] = true /\
  sorted_by_timestamp strptime_Ymd_HMS [rec_tie_b] = true /\
  ts_eqb strptime_Ymd_HMS rec_tie_a rec_tie_b = true /\
  merge_trace strptime_Ymd_HMS file_tie_a file_tie_b =
  ([(SideB, rec_tie_b); (SideA, rec_tie_a)], Done) /\
  ~ ties_favor_left strptime_Ymd_HMS [(SideB, rec_tie_b); (SideA, rec_tie_a)].
Proof.
  repeat (split; [reflexivity|]).
  intros H.
  destruct (H rec_tie_a rec_tie_b) as (pre & mid & post & Hsplit).
  - right. now left.
  - now left.
  - reflexivity.
  - destruct pre as [|x pre]; [discriminate|].
    injection Hsplit as _ Hsplit.
    destruct pre as [|y pre]; [|now destruct pre].
    injection Hsplit as Hsplit. now destruct mid.
Qed.

Lemma C4_ties_favor_right_witness :
  ties_favor_right strptime_Ymd_HMS [(SideB, rec_tie_b); (SideA, rec_tie_a)].
Proof.
  apply (C4_ties_favor_right strptime_Ymd_HMS file_tie_a file_tie_b
           [rec_tie_a] [rec_tie_b]); reflexivity.
Defined.

(** C6, as stated, fails in each of its three parts.  A row whose
    timestamp does not parse is read, and when the other side is exhausted
    by then it is yielded and the merge returns.  A row that is not JSON,
    on the second line of its file, ends the merge with the JSONDecodeError
    of json.loads, whose line number is 1, the line of the row's own text.
    A row that lacks a field, on the second line of its file, ends the
    merge with a TypeError, which carries no line number. *)
Lemma C6_counterexample :
  (strptime_Ymd_HMS "yesterday" = None /\
   _get_output_record strptime_Ymd_HMS file_a1 file_b_badts =
   ([rec_of "INFO" "2024-01-01 00:00:01" "a";
     rec_of "WARN" "2024-01-01 00:00:03" "b";
     rec_of "WARN" "yesterday" "late"], Done)) /\
  (nth_error (path_rows file_a_notjson) 1 = Some not_json_row /\
   structurally_invalid not_json_row not_json_error /\
   snd (_get_output_record strptime_Ymd_HMS file_a_notjson file_b) =
   Raised not_json_error /\
   lineno not_json_error = Some 1%nat) /\
  (nth_error (path_rows file_a_nofield) 1 = Some row_nofield /\
   structurally_invalid row_nofield TypeError /\
   snd (_get_output_record strptime_Ymd_HMS file_a_nofield file_b) =
   Raised TypeError /\
   lineno TypeError = None).
Proof.
  split; [split; reflexivity|].
  split.
  - repeat (split; [reflexivity|]).
    split; [apply bad_json|]. split; reflexivity.
  - repeat (split; [reflexivity|]).
    split; [|split; reflexivity].
    apply (missing_field _ "timestamp").
    + simpl. auto.
    + simpl. intros [H|[H|[]]]; discriminate.
Qed.

Lemma C6_malformed_row_aborts_witness :
  nth_error (path_rows file_a_notjson) 1 = Some not_json_row /\
  structurally_invalid not_json_row not_json_error /\
  decode_row not_json_row = inl not_json_error /\
  (List.length
     (emitted_from SideA (fst (merge_trace strptime_Ymd_HMS file_a_notjson file_b)))
   <= 1)%nat /\
  snd (merge_trace strptime_Ymd_HMS file_a_notjson file_b) =
  Raised not_json_error.
Proof.
  assert (nth_error (path_rows (side_path SideA file_a_notjson file_b)) 1 =
          Some not_json_row) as Hn by reflexivity.
  assert (structurally_invalid not_json_row not_json_error) as Hbad
    by apply bad_json.
  destruct (C6_malformed_row_aborts strptime_Ymd_HMS file_a_notjson file_b
              SideA 1 not_json_row not_json_error Hn Hbad)
    as (Hraise & _ & _ & _ & Hcount & Hexact & _).
  exact (conj Hn (conj Hbad (conj Hraise (conj Hcount
           (Hexact eq_refl (or_introl eq_refl) eq_refl))))).
Defined.

(** C7, as stated, fails when the first row of A is malformed and B does
    not exist: the merge ends with the TypeError of A's first row, so a row
    of A was read before B was checked. *)
Lemma C7_counterexample :
  invalid_input file_missing = true /\
  merge_trace strptime_Ymd_HMS file_badrow file_missing = ([], Raised TypeError) /\
  ~ InvalidInputError TypeError.
Proof.
  repeat (split; [reflexivity|]). intros [H|H]; discriminate.
Qed.

Lemma C7_path_validation_witness :
  exists e, InvalidInputError e /\
            merge_trace strptime_Ymd_HMS file_a1 file_missing = ([], Raised e).
Proof.
  apply (C7_path_validation strptime_Ymd_HMS file_a1 file_missing).
  right. split; [reflexivity|]. eexists. reflexivity.
Defined.

Lemma C9_merge_deterministic_witness :
  merge_from strptime_Ymd_HMS 3 file_tie_a file_tie_b =
  merge_from strptime_Ymd_HMS 10 file_tie_a file_tie_b.
Proof.
  apply (C9_merge_deterministic strptime_Ymd_HMS file_tie_a file_tie_b 3 10);
    try reflexivity; vm_compute; lia.
Defined.

Lemma C10_no_parse_after_exhaustion_witness :
  __timestamp strptime_Ymd_HMS (rec_of "WARN" "yesterday" "late") = Raise ValueError /\
  loop strptime_Ymd_HMS 3
    (live_state SideB (rec_of "WARN" "2024-01-01 00:00:03" "b")
       (GenSuspended [row_of "WARN" "yesterday" "late"]) GenClosed) =
  ([(SideB, rec_of "WARN" "2024-01-01 00:00:03" "b");
    (SideB, rec_of "WARN" "yesterday" "late")], Done).
Proof.
  split; [reflexivity|].
  apply (C10_no_parse_after_exhaustion strptime_Ymd_HMS SideB
           (rec_of "WARN" "2024-01-01 00:00:03" "b")
           (GenSuspended [row_of "WARN" "yesterday" "late"]) GenClosed
           [rec_of "WARN" "yesterday" "late"]).
  - reflexivity.
  - simpl. lia.
Defined.

(** * Further properties of the program *)

Lemma datetime_leb_ltb_false (a b : datetime) :
  datetime_leb b a = true -> datetime_ltb a b = false.
Proof.
  unfold datetime_ltb, datetime_leb, datetime_cmp.
  rewrite (tuple_cmp_antisym (datetime_tuple b) (datetime_tuple a)).
  now destruct (tuple_cmp (datetime_tuple b) (datetime_tuple a)).
Qed.

Lemma datetime_ltb_trans (a b c : datetime) :
  datetime_ltb a b = true -> datetime_ltb b c = true -> datetime_ltb a c = true.
Proof.
  intros Hab Hbc. apply datetime_ltb_leb_trans with b; [exact Hab|].
  now apply datetime_ltb_leb.
Qed.

Lemma datetime_ltb_asym (a b : datetime) :
  datetime_ltb a b = true -> datetime_ltb b a = false.
Proof.
  intros Hab. apply datetime_leb_ltb_false. now apply datetime_ltb_leb.
Qed.

Lemma datetime_ltb_false_trans (a b c : datetime) :
  datetime_ltb a b = false -> datetime_ltb b c = false ->
  datetime_ltb a c = false.
Proof.
  intros Hab Hbc. apply datetime_leb_ltb_false.
  apply datetime_leb_trans with b; now apply datetime_ltb_false_leb.
Qed.

(** ** Decoding a row *)

Lemma dict_get_In (k : string) (members : list (string * json)) : forall v,
  dict_get k members = Some v -> In (k, v) members.
Proof.
  induction members as [|[k' v'] members IH]; simpl; intros v H;
    [discriminate|].
  destruct (dict_get k members) as [w|] eqn:E.
  - injection H as <-. right. now apply IH.
  - destruct (String.eqb k k') eqn:Ek; [|discriminate].
    injection H as <-. apply String.eqb_eq in Ek. subst k'. now left.
Qed.

Lemma dict_get_key (k : string) (members : list (string * json)) :
  In k (map fst members) -> exists v, dict_get k members = Some v.
Proof.
  induction members as [|[k' v'] members IH]; simpl; [contradiction|].
  intros [->|Hin].
  - destruct (dict_get k members); eauto. rewrite String.eqb_refl. eauto.
  - destruct (IH Hin) as [v ->]. eauto.
Qed.

Lemma In_dict_get (k : string) (members : list (string * json)) : forall v,
  NoDup (map fst members) -> In (k, v) members -> dict_get k members = Some v.
Proof.
  induction members as [|[k' v'] members IH]; simpl; intros v Hnd Hin;
    [contradiction|].
  inversion Hnd as [|? ? Hfresh Hnd']; subst.
  destruct Hin as [[= -> ->]|Hin].
  - destruct (dict_get k members) as [w|] eqn:E.
    + exfalso. apply Hfresh. apply dict_get_In in E.
      now apply (in_map fst) in E.
    + now rewrite String.eqb_refl.
  - now rewrite (IH v Hnd' Hin).
Qed.

Lemma dict_get_perm (members members' : list (string * json)) (k : string) :
  Permutation members members' -> NoDup (map fst members) ->
  dict_get k members = dict_get k members'.
Proof.
  intros Hperm Hnd.
  assert (NoDup (map fst members')) as Hnd'
    by (eapply Permutation_NoDup; [apply Permutation_map, Hperm|exact Hnd]).
  destruct (dict_get k members) as [v|] eqn:E.
  - symmetry. apply In_dict_get; [exact Hnd'|].
    eapply Permutation_in; [exact Hperm|]. now apply dict_get_In.
  - destruct (dict_get k members') as [v'|] eqn:E'; [|reflexivity].
    apply dict_get_In in E'.
    apply (Permutation_in _ (Permutation_sym Hperm)) in E'.
    rewrite (In_dict_get _ _ _ Hnd E') in E. discriminate.
Qed.

Lemma forallb_perm {A : Type} (f : A -> bool) (l l' : list A) :
  Permutation l l' -> forallb f l = forallb f l'.
Proof.
  intros Hperm.
  destruct (forallb f l) eqn:E, (forallb f l') eqn:E'; try reflexivity.
  - rewrite forallb_forall in E.
    assert (forallb f l' = true) as H.
    { apply forallb_forall. intros x Hx. apply E.
      eapply Permutation_in; [apply Permutation_sym, Hperm|exact Hx]. }
    congruence.
  - rewrite forallb_forall in E'.
    assert (forallb f l = true) as H.
    { apply forallb_forall. intros x Hx. apply E'.
      eapply Permutation_in; [exact Hperm|exact Hx]. }
    congruence.
Qed.

(** X3. The order of the members of a row's JSON object does not matter:
    two objects with the same members, no key repeated, decode alike (to the
    same record, or to the same exception). *)
Theorem X3_field_order_irrelevant (members members' : list (string * json)) :
  Permutation members members' ->
  NoDup (map fst members) ->
  decode_row (Json (JObj members)) = decode_row (Json (JObj members')).
Proof.
  intros Hperm Hnd. unfold decode_row, json_loads, bind, Ret, LogRecord_init.
  rewrite (forallb_perm _ members members' Hperm).
  now rewrite !(dict_get_perm members members' _ Hperm Hnd).
Qed.

(** X4. The constructor call of line 91 makes a record of the value that
    [json.loads] returned exactly when the value is an object whose set of
    keys is the set of the three field names; on any other value, a missing
    field or an unknown key it raises. *)
Theorem X4_decodes_iff_three_fields (v : json) :
  (exists r, LogRecord_init v = inr r) <->
  (exists members, v = JObj members /\
                   forall k, In k (map fst members) <-> In k field_names).
Proof.
  unfold Ret, LogRecord_init, Raise. split.
  - intros [r Hr]. destruct v as [| | | | | |members]; try discriminate.
    exists members. split; [reflexivity|].
    destruct (forallb _ members) eqn:Hall; [|discriminate].
    destruct (dict_get "log_level" members) as [l|] eqn:Hl; [|discriminate].
    destruct (dict_get "timestamp" members) as [t|] eqn:Ht; [|discriminate].
    destruct (dict_get "message" members) as [m|] eqn:Hm; [|discriminate].
    rewrite forallb_forall in Hall. intros k. split.
    + intros Hk. apply in_map_iff in Hk as ([k' w] & <- & Hkw).
      specialize (Hall _ Hkw). apply existsb_exists in Hall as (f & Hf & Heq).
      apply String.eqb_eq in Heq. simpl in Heq. now subst f.
    + intros [<-|[<-|[<-|[]]]].
      * apply dict_get_In in Hl. now apply (in_map fst) in Hl.
      * apply dict_get_In in Ht. now apply (in_map fst) in Ht.
      * apply dict_get_In in Hm. now apply (in_map fst) in Hm.
  - intros (members & -> & Hkeys).
    assert (forallb (fun kv => existsb (String.eqb (fst kv)) field_names)
              members = true) as ->.
    { apply forallb_forall. intros kv Hkv. apply existsb_exists.
      exists (fst kv). split; [|apply String.eqb_refl].
      apply Hkeys. now apply in_map. }
    destruct (dict_get_key "log_level" members) as [l ->];
      [apply Hkeys; simpl; auto|].
    destruct (dict_get_key "timestamp" members) as [t ->];
      [apply Hkeys; simpl; auto|].
    destruct (dict_get_key "message" members) as [m ->];
      [apply Hkeys; simpl; auto|].
    eauto.
Qed.


(** ** Reading a file *)

Lemma read_all_rows (rows : list Row) : forall fuel,
  (List.length rows < fuel)%nat ->
  read_all fuel (GenSuspended rows) =
  (feed_items (feed_of_rows rows),
   match feed_error (feed_of_rows rows) with
   | Some e => Raised e
   | None => Done
   end).
Proof.
  induction rows as [|row rest IH]; intros [|fuel] Hfuel; simpl in *;
    try lia; try reflexivity.
  destruct (decode_row row) as [e|r]; simpl; [reflexivity|].
  rewrite IH by lia. reflexivity.
Qed.

Lemma read_all_path (p : Path) (fuel : nat) :
  invalid_input p = false ->
  (List.length (path_rows p) < fuel)%nat ->
  read_all fuel (_get_record p) = read_all fuel (GenSuspended (path_rows p)).
Proof.
  intros Hvalid Hfuel. destruct fuel as [|fuel]; [reflexivity|].
  simpl. now rewrite (check_valid p Hvalid).
Qed.

Lemma feed_of_rows_nth (rows : list Row) : forall n r,
  nth_error (feed_items (feed_of_rows rows)) n = Some r ->
  exists row, nth_error rows n = Some row /\ decode_row row = inr r.
Proof.
  induction rows as [|row rest IH]; intros n r; simpl.
  - now destruct n.
  - destruct (decode_row row) as [e|r0] eqn:Hrow; simpl; [now destruct n|].
    destruct n as [|n]; simpl.
    + intros [= <-]. eauto.
    + apply IH.
Qed.

Lemma feed_of_rows_failing (rows : list Row) (e : exn) :
  feed_error (feed_of_rows rows) = Some e ->
  exists row,
    nth_error rows (List.length (feed_items (feed_of_rows rows))) = Some row /\
    decode_row row = inl e.
Proof.
  induction rows as [|row rest IH]; simpl; [discriminate|].
  destruct (decode_row row) as [e0|r0] eqn:Hrow; simpl.
  - intros [= <-]. eauto.
  - apply IH.
Qed.

(** X2. Reading a valid path to its end yields one record for each turn of
    the loop over the file, in order, up to the first turn that raises: the
    n-th record read is the record of the n-th turn; the reader ends
    normally only after every turn has given a record; and when it raises,
    the exception is the one of the turn that follows the last record
    read. *)
Theorem X2_reader_follows_rows (p : Path) (fuel : nat) :
  invalid_input p = false ->
  (List.length (path_rows p) < fuel)%nat ->
  (forall n r,
      nth_error (fst (read_all fuel (_get_record p))) n = Some r ->
      exists row, nth_error (path_rows p) n = Some row /\
                  decode_row row = inr r) /\
  (snd (read_all fuel (_get_record p)) = Done ->
   List.length (fst (read_all fuel (_get_record p))) =
   List.length (path_rows p)) /\
  (forall e,
      snd (read_all fuel (_get_record p)) = Raised e ->
      exists row,
        nth_error (path_rows p)
          (List.length (fst (read_all fuel (_get_record p)))) = Some row /\
        decode_row row = inl e) /\
  snd (read_all fuel (_get_record p)) <> OutOfFuel.
Proof.
  intros Hvalid Hfuel.
  rewrite (read_all_path p fuel Hvalid Hfuel), (read_all_rows _ fuel Hfuel).
  cbn [fst snd]. repeat split.
  - apply feed_of_rows_nth.
  - destruct (feed_error (feed_of_rows (path_rows p))) eqn:He;
      [discriminate|]. intros _. now apply feed_of_rows_full.
  - intros e. destruct (feed_error (feed_of_rows (path_rows p))) eqn:He;
      [|discriminate]. intros [= <-]. now apply feed_of_rows_failing.
  - now destruct (feed_error (feed_of_rows (path_rows p))).
Qed.


(** ** The output directory *)

(** X11. What [_create_output_dir] does with the output directory: it
    deletes the directory exactly when it exists and either [-w] was given
    or the answer to the prompt is anything but "no" (in any letter case);
    it prompts exactly when the directory exists and [-w] was not given; it
    leaves through [exit(0)] exactly when the answer to that prompt is "no";
    otherwise its last act is to create the directory, which it never does
    on a directory that exists and was not deleted. *)
Theorem X11_output_dir_decisions (dir_exists overwrite : bool) (answer : string) :
  (In Rmtree (fst (_create_output_dir dir_exists overwrite answer)) <->
   dir_exists = true /\ (overwrite = true \/ lower answer <> "no")) /\
  (In Input (fst (_create_output_dir dir_exists overwrite answer)) <->
   dir_exists = true /\ overwrite = false) /\
  (snd (_create_output_dir dir_exists overwrite answer) = SystemExit 0 <->
   dir_exists = true /\ overwrite = false /\ lower answer = "no") /\
  (snd (_create_output_dir dir_exists overwrite answer) = Continue <->
   exists pre, fst (_create_output_dir dir_exists overwrite answer) =
               pre ++ [Mkdir]) /\
  (In Mkdir (fst (_create_output_dir dir_exists overwrite answer)) ->
   dir_exists = true ->
   In Rmtree (fst (_create_output_dir dir_exists overwrite answer))).
Proof.
  unfold _create_output_dir.
  assert (lower answer = "no" \/ lower answer <> "no") as [Hno|Hno]
    by (destruct (String.eqb_spec (lower answer) "no"); auto);
    [ rewrite (proj2 (String.eqb_eq _ _) Hno)
    | rewrite (proj2 (String.eqb_neq _ _) Hno) ];
    destruct dir_exists, overwrite; cbn [negb fst snd app In];
    repeat split;
    try solve [ intuition (try discriminate; try congruence)
              | intros _; now exists [Rmtree]
              | intros _; now exists [Print MsgOutputExists; Input; Rmtree]
              | intros _; now exists []
              | intros [[|x [|y pre]] Hpre]; try discriminate Hpre;
                now destruct pre ].
Qed.

Section ProgramProps.

Variable strptime : string -> option datetime.

(** ** The ordering of records *)

Lemma lt_parsed (r1 r2 : LogRecord) (t1 t2 : datetime) :
  __timestamp strptime r1 = inr t1 -> __timestamp strptime r2 = inr t2 ->
  __lt__ strptime r1 (Some r2) = Ret (datetime_ltb t1 t2).
Proof. unfold __lt__, bind. now intros -> ->. Qed.

Lemma gt_parsed (r1 r2 : LogRecord) (t1 t2 : datetime) :
  __timestamp strptime r1 = inr t1 -> __timestamp strptime r2 = inr t2 ->
  __gt__ strptime r1 (Some r2) = Ret (datetime_ltb t2 t1).
Proof. unfold __gt__, bind. now intros -> ->. Qed.

(** X1. On records whose timestamps parse, [__lt__] is a strict weak order
    (irreflexive, asymmetric, transitive, and with a transitive "not
    earlier"), and [r2 > r1] computed by [__gt__] agrees with [r1 < r2]. *)
Theorem X1_lt_strict_weak_order (r1 r2 r3 : LogRecord) (t1 t2 t3 : datetime) :
  __timestamp strptime r1 = inr t1 ->
  __timestamp strptime r2 = inr t2 ->
  __timestamp strptime r3 = inr t3 ->
  __lt__ strptime r1 (Some r1) = Ret false /\
  (__lt__ strptime r1 (Some r2) = Ret true ->
   __lt__ strptime r2 (Some r1) = Ret false) /\
  (__lt__ strptime r1 (Some r2) = Ret true ->
   __lt__ strptime r2 (Some r3) = Ret true ->
   __lt__ strptime r1 (Some r3) = Ret true) /\
  (__lt__ strptime r1 (Some r2) = Ret false ->
   __lt__ strptime r2 (Some r3) = Ret false ->
   __lt__ strptime r1 (Some r3) = Ret false) /\
  __gt__ strptime r2 (Some r1) = __lt__ strptime r1 (Some r2).
Proof.
  intros H1 H2 H3.
  rewrite (lt_parsed r1 r1 t1 t1 H1 H1), (lt_parsed r1 r2 t1 t2 H1 H2),
    (lt_parsed r2 r1 t2 t1 H2 H1), (lt_parsed r2 r3 t2 t3 H2 H3),
    (lt_parsed r1 r3 t1 t3 H1 H3), (gt_parsed r2 r1 t2 t1 H2 H1).
  unfold Ret. repeat split.
  - now rewrite datetime_ltb_irrefl.
  - intros [= H]. now rewrite (datetime_ltb_asym _ _ H).
  - intros [= H12] [= H23]. now rewrite (datetime_ltb_trans _ _ _ H12 H23).
  - intros [= H12] [= H23].
    now rewrite (datetime_ltb_false_trans _ _ _ H12 H23).
Qed.

(** ** The merge on arbitrary files *)

Lemma emitted_from_tagged (s : Side) (l : list LogRecord) :
  emitted_from s (map (pair s) l) = l /\
  emitted_from (other_side s) (map (pair s) l) = [].
Proof.
  induction l as [|r l [IH1 IH2]]; [now split|].
  destruct s; simpl in *; now rewrite ?IH1, ?IH2.
Qed.

Lemma map_snd_tagged (s : Side) (l : list LogRecord) :
  map snd (map (pair s) l) = l.
Proof. induction l as [|r l IH]; simpl; congruence. Qed.

Lemma lt_result_parsed (ra rb : LogRecord) (b : bool) :
  __lt__ strptime ra (Some rb) = inr b ->
  exists ta tb, __timestamp strptime ra = inr ta /\
                __timestamp strptime rb = inr tb /\
                b = datetime_ltb ta tb.
Proof.
  unfold __lt__, bind, Ret.
  destruct (__timestamp strptime ra) as [e|ta]; [discriminate|].
  destruct (__timestamp strptime rb) as [e|tb]; [discriminate|].
  intros [= <-]. eauto.
Qed.

Lemma lt_error_swapped (ra rb : LogRecord) (e : exn) :
  __lt__ strptime ra (Some rb) = inl e ->
  exists e', __lt__ strptime rb (Some ra) = inl e'.
Proof.
  unfold __lt__, bind, Ret.
  destruct (__timestamp strptime ra) as [ea|ta];
    destruct (__timestamp strptime rb) as [eb|tb]; try discriminate; eauto.
Qed.

Lemma ts_ltb_lt_true (ra rb : LogRecord) :
  ts_ltb strptime ra rb = true -> __lt__ strptime ra (Some rb) = inr true.
Proof.
  unfold ts_ltb, __lt__, bind, Ret.
  destruct (__timestamp strptime ra) as [e|ta]; [discriminate|].
  destruct (__timestamp strptime rb) as [e|tb]; [discriminate|].
  now intros ->.
Qed.

Lemma ts_leb_lt_false (ra rb : LogRecord) :
  ts_leb strptime rb ra = true -> __lt__ strptime ra (Some rb) = inr false.
Proof.
  unfold ts_leb, __lt__, bind, Ret.
  destruct (__timestamp strptime rb) as [e|tb]; [discriminate|].
  destruct (__timestamp strptime ra) as [e|ta]; [discriminate|].
  intros H. now rewrite (datetime_leb_ltb_false _ _ H).
Qed.

Lemma merge_feeds_items (ra : LogRecord) (fa : Feed) (rb : LogRecord) (fb : Feed) :
  merge_feeds strptime (FeedItem ra fa) (FeedItem rb fb) =
  match __lt__ strptime ra (Some rb) with
  | inl e => ([], Raised e)
  | inr true => emit (SideA, ra) (merge_feeds strptime fa (FeedItem rb fb))
  | inr false => emit (SideB, rb) (merge_feeds strptime (FeedItem ra fa) fb)
  end.
Proof. reflexivity. Qed.

(** The feed of the side [s]. *)
Lemma readable_side (s : Side) (pa pb : Path) :
  readable_records (side_path s pa pb) =
  feed_items (match s with
              | SideA => feed_of_gen (_get_record pa)
              | SideB => feed_of_gen (_get_record pb)
              end).
Proof. now destruct s. Qed.

(** X5. The merge keeps each file's own order, sorted or not: the records
    yielded from a side are, in order and without gaps or repeats, the
    leading records that its file yields, and all of them once the merge
    returns. *)
Theorem X5_source_order_kept (pa pb : Path) (s : Side) :
  (exists rest,
      readable_records (side_path s pa pb) =
      emitted_from s (fst (merge_trace strptime pa pb)) ++ rest) /\
  (snd (merge_trace strptime pa pb) = Done ->
   emitted_from s (fst (merge_trace strptime pa pb)) =
   readable_records (side_path s pa pb)).
Proof.
  rewrite merge_trace_replay, readable_side.
  set (fa := feed_of_gen (_get_record pa)).
  set (fb := feed_of_gen (_get_record pb)).
  split.
  - destruct (merge_start_prefix strptime fa fb) as [Ha Hb]. now destruct s.
  - intros Hdone.
    destruct (merge_start_done strptime fa fb Hdone) as (Heq & _ & _).
    rewrite Heq in *.
    destruct (merge_feeds_done strptime fa fb Hdone) as (_ & _ & Ha & Hb).
    now destruct s.
Qed.

(** X6. What the merge has yielded is sorted also when it aborts: if the
    records that each file yields before its end or its first bad row are
    sorted, the records yielded by the merge are sorted, however the merge
    ends. *)
Theorem X6_partial_output_sorted (pa pb : Path) :
  sorted_by_timestamp strptime (readable_records pa) = true ->
  sorted_by_timestamp strptime (readable_records pb) = true ->
  sorted_by_timestamp strptime (fst (_get_output_record strptime pa pb)) = true.
Proof.
  unfold readable_records, _get_output_record. cbn [fst].
  rewrite merge_trace_replay.
  set (fa := feed_of_gen (_get_record pa)).
  set (fb := feed_of_gen (_get_record pb)).
  intros Ha Hb. unfold merge_start.
  destruct fa as [|ra fa'|ea] eqn:Efa; try reflexivity.
  destruct fb as [|rb fb'|eb] eqn:Efb; try reflexivity.
  now apply merge_feeds_sorted.
Qed.

Lemma merge_feeds_unparsable : forall fa fb pre s r post e,
  fst (merge_feeds strptime fa fb) = pre ++ (s, r) :: post ->
  __timestamp strptime r = inl e ->
  emitted_from (other_side s) pre =
  feed_items (match s with SideA => fb | SideB => fa end) /\
  emitted_from (other_side s) post = [].
Proof.
  apply (merge_feeds_cases strptime (fun fa fb res =>
    forall pre s r post e,
      fst res = pre ++ (s, r) :: post ->
      __timestamp strptime r = inl e ->
      emitted_from (other_side s) pre =
      feed_items (match s with SideA => fb | SideB => fa end) /\
      emitted_from (other_side s) post = []));
    try (intros; cbn [fst] in *;
         match goal with
         | H : [] = ?pre ++ _ :: _ |- _ => now destruct pre
         end).
  - (* A ended *)
    intros rb fb' IH pre s r post e Hout Hts. cbn [emit fst snd] in Hout.
    destruct pre as [|x pre].
    + rewrite merge_feeds_end_l in Hout. cbn [fst app] in Hout.
      injection Hout as Hs Hr Hpost. subst s r post.
      split; [reflexivity|]. apply (emitted_from_tagged SideB).
    + cbn [app] in Hout. injection Hout as Hx Hout. subst x. destruct (IH pre s r post e Hout Hts) as [H1 H2].
      split; [|exact H2]. destruct s; simpl in *; now rewrite H1.
  - (* B ended *)
    intros ra fa' IH pre s r post e Hout Hts. cbn [emit fst snd] in Hout.
    destruct pre as [|x pre].
    + rewrite merge_feeds_end_r in Hout. cbn [fst app] in Hout.
      injection Hout as Hs Hr Hpost. subst s r post.
      split; [reflexivity|]. apply (emitted_from_tagged SideA).
    + cbn [app] in Hout. injection Hout as Hx Hout. subst x. destruct (IH pre s r post e Hout Hts) as [H1 H2].
      split; [|exact H2]. destruct s; simpl in *; now rewrite H1.
  - (* A's record was compared and taken *)
    intros ra fa' rb fb' Hlt IH pre s r post e Hout Hts.
    cbn [emit fst snd] in Hout.
    destruct pre as [|x pre].
    + cbn [app] in Hout. injection Hout as Hs Hr Hpost. subst s r post.
      destruct (lt_result_parsed _ _ _ Hlt) as (ta & tb & Hta & _ & _).
      congruence.
    + cbn [app] in Hout. injection Hout as Hx Hout. subst x. destruct (IH pre s r post e Hout Hts) as [H1 H2].
      split; [|exact H2]. destruct s; simpl in *; now rewrite H1.
  - (* B's record was compared and taken *)
    intros ra fa' rb fb' Hlt IH pre s r post e Hout Hts.
    cbn [emit fst snd] in Hout.
    destruct pre as [|x pre].
    + cbn [app] in Hout. injection Hout as Hs Hr Hpost. subst s r post.
      destruct (lt_result_parsed _ _ _ Hlt) as (ta & tb & _ & Htb & _).
      congruence.
    + cbn [app] in Hout. injection Hout as Hx Hout. subst x. destruct (IH pre s r post e Hout Hts) as [H1 H2].
      split; [|exact H2]. destruct s; simpl in *; now rewrite H1.
Qed.

(** X7. A record whose timestamp does not parse is yielded only once the
    other file is exhausted: every record the other file yields has left
    before it, and none leaves after it. *)
Theorem X7_unparsable_only_after_exhaustion (pa pb : Path)
  (pre post : list Emitted) (s : Side) (r : LogRecord) (e : exn) :
  fst (merge_trace strptime pa pb) = pre ++ (s, r) :: post ->
  __timestamp strptime r = inl e ->
  emitted_from (other_side s) pre =
  readable_records (side_path (other_side s) pa pb) /\
  emitted_from (other_side s) post = [].
Proof.
  rewrite merge_trace_replay, readable_side.
  set (fa := feed_of_gen (_get_record pa)).
  set (fb := feed_of_gen (_get_record pb)).
  clearbody fa fb. intros Hout Hts.
  assert (fst (merge_feeds strptime fa fb) = pre ++ (s, r) :: post) as Hout'.
  { unfold merge_start in Hout.
    destruct fa as [|ra fa'|ea]; [now destruct pre| |now destruct pre].
    destruct fb as [|rb fb'|eb]; [now destruct pre| |now destruct pre].
    exact Hout. }
  destruct (merge_feeds_unparsable fa fb pre s r post e Hout' Hts) as [H1 H2].
  split; [|exact H2]. now destruct s.
Qed.

(** ** Logs that do not overlap, and the order of the arguments *)

Lemma merge_feeds_all_earlier (b1 : LogRecord) (fb : Feed) :
  forall A : list LogRecord,
    (forall a, In a A -> ts_ltb strptime a b1 = true) ->
    merge_feeds strptime (feed_of_list A) (FeedItem b1 fb) =
    (map (pair SideA) A ++ fst (merge_feeds strptime FeedEnd (FeedItem b1 fb)),
     snd (merge_feeds strptime FeedEnd (FeedItem b1 fb))).
Proof.
  induction A as [|a A IH]; intros Hall.
  - cbn [feed_of_list map app]. now destruct (merge_feeds strptime FeedEnd _).
  - cbn [feed_of_list]. rewrite merge_feeds_items.
    rewrite (ts_ltb_lt_true a b1) by (apply Hall; now left).
    rewrite IH by (intros a' Ha'; apply Hall; now right). reflexivity.
Qed.

Lemma merge_feeds_all_not_later (a1 : LogRecord) (fa : Feed) :
  forall B : list LogRecord,
    (forall b, In b B -> ts_leb strptime b a1 = true) ->
    merge_feeds strptime (FeedItem a1 fa) (feed_of_list B) =
    (map (pair SideB) B ++ fst (merge_feeds strptime (FeedItem a1 fa) FeedEnd),
     snd (merge_feeds strptime (FeedItem a1 fa) FeedEnd)).
Proof.
  induction B as [|b B IH]; intros Hall.
  - cbn [feed_of_list map app].
    now destruct (merge_feeds strptime (FeedItem a1 fa) FeedEnd).
  - cbn [feed_of_list]. rewrite merge_feeds_items.
    rewrite (ts_leb_lt_false a1 b) by (apply Hall; now left).
    rewrite IH by (intros b' Hb'; apply Hall; now right). reflexivity.
Qed.

(** X8. Two logs that do not overlap in time are concatenated: when every
    record of A is strictly earlier than the first record of B, the merge
    yields all of A, then all of B, and returns (the later records of B
    need not even carry a timestamp that parses). *)
Theorem X8_earlier_log_first (pa pb : Path) (a1 b1 : LogRecord)
  (A B : list LogRecord) :
  drain (_get_record pa) = inr (a1 :: A) ->
  drain (_get_record pb) = inr (b1 :: B) ->
  (forall a, In a (a1 :: A) -> ts_ltb strptime a b1 = true) ->
  _get_output_record strptime pa pb = ((a1 :: A) ++ b1 :: B, Done).
Proof.
  intros HA HB Hall. unfold _get_output_record.
  rewrite merge_trace_replay, (drain_feed _ _ HA), (drain_feed _ _ HB).
  cbn [merge_start feed_of_list].
  change (FeedItem a1 (feed_of_list A)) with (feed_of_list (a1 :: A)).
  rewrite (merge_feeds_all_earlier b1 (feed_of_list B) (a1 :: A) Hall).
  rewrite merge_feeds_end_l. cbn [fst snd feed_items feed_error].
  rewrite feed_items_of_list, feed_error_of_list, map_app.
  rewrite (map_snd_tagged SideA (a1 :: A)).
  now rewrite (map_snd_tagged SideB (b1 :: B)).
Qed.

(** X9. When every record of B is at most as late as the first record of A
    (equal timestamps included), the merge yields all of B, then all of A,
    and returns. *)
Theorem X9_not_later_log_first (pa pb : Path) (a1 b1 : LogRecord)
  (A B : list LogRecord) :
  drain (_get_record pa) = inr (a1 :: A) ->
  drain (_get_record pb) = inr (b1 :: B) ->
  (forall b, In b (b1 :: B) -> ts_leb strptime b a1 = true) ->
  _get_output_record strptime pa pb = ((b1 :: B) ++ a1 :: A, Done).
Proof.
  intros HA HB Hall. unfold _get_output_record.
  rewrite merge_trace_replay, (drain_feed _ _ HA), (drain_feed _ _ HB).
  cbn [merge_start feed_of_list].
  change (FeedItem b1 (feed_of_list B)) with (feed_of_list (b1 :: B)).
  rewrite (merge_feeds_all_not_later a1 (feed_of_list A) (b1 :: B) Hall).
  rewrite merge_feeds_end_r. cbn [fst snd feed_items feed_error].
  rewrite feed_items_of_list, feed_error_of_list, map_app.
  rewrite (map_snd_tagged SideB (b1 :: B)).
  now rewrite (map_snd_tagged SideA (a1 :: A)).
Qed.

Lemma datetime_ltb_total (a b : datetime) :
  datetime_ltb a b = false -> datetime_cmp a b <> Eq ->
  datetime_ltb b a = true.
Proof.
  unfold datetime_ltb, datetime_cmp.
  rewrite (tuple_cmp_antisym (datetime_tuple a) (datetime_tuple b)).
  destruct (tuple_cmp (datetime_tuple a) (datetime_tuple b));
    simpl; congruence.
Qed.

Lemma merge_feeds_swapped : forall fa fb,
  no_cross_ties strptime (feed_items fa) (feed_items fb) ->
  map snd (fst (merge_feeds strptime fa fb)) =
  map snd (fst (merge_feeds strptime fb fa)) /\
  (snd (merge_feeds strptime fa fb) = Done <->
   snd (merge_feeds strptime fb fa) = Done).
Proof.
  apply (merge_feeds_cases strptime (fun fa fb res =>
    no_cross_ties strptime (feed_items fa) (feed_items fb) ->
    map snd (fst res) = map snd (fst (merge_feeds strptime fb fa)) /\
    (snd res = Done <-> snd (merge_feeds strptime fb fa) = Done))).
  - intros e fb _. destruct fb; simpl; (split; [reflexivity|]);
      split; discriminate.
  - intros e _. simpl. split; [reflexivity|]. split; discriminate.
  - intros _. simpl. split; [reflexivity|]. split; reflexivity.
  - intros rb fb' IH Hties.
    destruct IH as [IH1 IH2]; [intros a b []|].
    change (merge_feeds strptime (FeedItem rb fb') FeedEnd) with
      (emit (SideA, rb) (merge_feeds strptime fb' FeedEnd)).
    cbn [emit fst snd map]. now rewrite IH1.
  - intros ra fa' e _. simpl. split; [reflexivity|]. split; discriminate.
  - intros ra fa' IH Hties.
    destruct IH as [IH1 IH2]; [intros a b _ []|].
    change (merge_feeds strptime FeedEnd (FeedItem ra fa')) with
      (emit (SideB, ra) (merge_feeds strptime FeedEnd fa')).
    cbn [emit fst snd map]. now rewrite IH1.
  - intros ra fa' rb fb' e Hlt _. rewrite merge_feeds_items.
    destruct (lt_error_swapped _ _ _ Hlt) as [e' ->]. simpl.
    split; [reflexivity|]. split; discriminate.
  - intros ra fa' rb fb' Hlt IH Hties. rewrite merge_feeds_items.
    destruct (lt_result_parsed _ _ _ Hlt) as (ta & tb & Hta & Htb & Hb).
    rewrite (lt_parsed rb ra tb ta Htb Hta).
    rewrite (datetime_ltb_asym ta tb) by congruence. unfold Ret.
    destruct IH as [IH1 IH2].
    { intros a b Ha Hb'. apply Hties; [now right|exact Hb']. }
    cbn [emit fst snd map]. now rewrite IH1.
  - intros ra fa' rb fb' Hlt IH Hties. rewrite merge_feeds_items.
    destruct (lt_result_parsed _ _ _ Hlt) as (ta & tb & Hta & Htb & Hb).
    rewrite (lt_parsed rb ra tb ta Htb Hta).
    assert (ts_eqb strptime ra rb = false) as Hne
      by (apply Hties; now left).
    unfold ts_eqb in Hne. rewrite Hta, Htb in Hne.
    rewrite (datetime_ltb_total ta tb)
      by (try congruence; now destruct (datetime_cmp ta tb)).
    unfold Ret. destruct IH as [IH1 IH2].
    { intros a b Ha Hb'. apply Hties; [exact Ha|now right]. }
    cbn [emit fst snd map]. now rewrite IH1.
Qed.

(** X10. The order of the two arguments matters for ties only: when no
    record of A has the parsed timestamp of a record of B, merging A with B
    and merging B with A yield the same records in the same order, and
    either both return or both raise. *)
Theorem X10_argument_order_only_for_ties (pa pb : Path) (A B : list LogRecord) :
  drain (_get_record pa) = inr A ->
  drain (_get_record pb) = inr B ->
  no_cross_ties strptime A B ->
  fst (_get_output_record strptime pa pb) =
  fst (_get_output_record strptime pb pa) /\
  (snd (_get_output_record strptime pa pb) = Done <->
   snd (_get_output_record strptime pb pa) = Done).
Proof.
  intros HA HB Hties. unfold _get_output_record. cbn [fst snd].
  rewrite !merge_trace_replay, (drain_feed _ _ HA), (drain_feed _ _ HB).
  destruct A as [|a A], B as [|b B]; cbn [merge_start feed_of_list];
    try (split; [reflexivity|split; discriminate]).
  apply (merge_feeds_swapped (feed_of_list (a :: A)) (feed_of_list (b :: B))).
  now rewrite !feed_items_of_list.
Qed.

(** ** The program *)

Lemma merge_trace_invalid_a (pa pb : Path) :
  invalid_input pa = true ->
  exists e, InvalidInputError e /\
            _get_output_record strptime pa pb = ([], Raised e).
Proof.
  intros Ha. destruct (check_invalid pa Ha) as (e & He & Hc).
  exists e. split; [exact He|].
  unfold _get_output_record, merge_trace, merge_from. simpl. now rewrite Hc.
Qed.

(** X13. The output directory is dealt with before any input is looked
    at: when it exists and [-w] was given or the prompt was answered with
    anything but "no", the program deletes it, creates it anew and opens the
    output file even though the first input path is invalid; it then ends
    with the validation error, having written no line and without the
    closing message. *)
Theorem X13_output_replaced_before_validation (args : Args) (answer : string) :
  output_dir_exists args = true ->
  overwrite args = true \/ lower answer <> "no" ->
  invalid_input (path_to_log_a args) = true ->
  exists e pre,
    InvalidInputError e /\
    main strptime args answer =
    (pre ++ [Rmtree; Mkdir; OpenOutput; CloseOutput], Aborted e) /\
    written_lines (fst (main strptime args answer)) = [].
Proof.
  intros Hdir Hconsent Hinvalid.
  destruct (merge_trace_invalid_a (path_to_log_a args) (path_to_log_b args)
              Hinvalid) as (e & He & Hrun).
  exists e. unfold main, _create_output_dir. rewrite Hdir, Hrun.
  destruct (overwrite args) eqn:Hov; cbn [negb fst snd app map].
  - exists [Print MsgMerging]. now repeat split.
  - destruct Hconsent as [Hw|Hno]; [discriminate|].
    rewrite (proj2 (String.eqb_neq _ _) Hno). cbn [negb fst snd app map].
    exists [Print MsgMerging; Print MsgOutputExists; Input]. now repeat split.
Qed.

End ProgramProps.

(** * The further properties on the sample files *)

Lemma X1_lt_strict_weak_order_witness :
  __lt__ strptime_Ymd_HMS (rec_of "INFO" "2024-01-01 00:00:01" "a")
    (Some (rec_of "INFO" "2024-01-01 00:00:05" "c")) = Ret true.
Proof.
  destruct (X1_lt_strict_weak_order strptime_Ymd_HMS
              (rec_of "INFO" "2024-01-01 00:00:01" "a")
              (rec_of "WARN" "2024-01-01 00:00:03" "b")
              (rec_of "INFO" "2024-01-01 00:00:05" "c")
              (mkDatetime 2024 1 1 0 0 1) (mkDatetime 2024 1 1 0 0 3)
              (mkDatetime 2024 1 1 0 0 5) eq_refl eq_refl eq_refl)
    as (_ & _ & Htrans & _).
  exact (Htrans eq_refl eq_refl).
Defined.

Lemma X2_reader_follows_rows_witness :
  exists row,
    nth_error (path_rows file_a_notjson)
      (List.length (fst (read_all 4 (_get_record file_a_notjson)))) = Some row /\
    decode_row row = inl not_json_error.
Proof.
  assert (List.length (path_rows file_a_notjson) < 4)%nat as Hfuel
    by (simpl; lia).
  destruct (X2_reader_follows_rows file_a_notjson 4 eq_refl Hfuel)
    as (_ & _ & Hraised & _).
  exact (Hraised not_json_error eq_refl).
Defined.

Lemma X3_field_order_irrelevant_witness :
  decode_row (row_of "WARN" "2024-01-01 00:00:03" "b") =
  decode_row row_b_reordered.
Proof.
  apply (X3_field_order_irrelevant
           [("log_level", JStr "WARN");
            ("timestamp", JStr "2024-01-01 00:00:03");
            ("message", JStr "b")]
           [("message", JStr "b"); ("log_level", JStr "WARN");
            ("timestamp", JStr "2024-01-01 00:00:03")]).
  - apply Permutation_sym.
    apply (Permutation_cons_app
             [("log_level", JStr "WARN");
              ("timestamp", JStr "2024-01-01 00:00:03")] []).
    rewrite app_nil_r. apply Permutation_refl.
  - repeat constructor; simpl; intuition discriminate.
Defined.

Lemma X6_partial_output_sorted_witness :
  readable_records file_ac_notjson = records_ac /\
  readable_records file_bd =
  [rec_of "WARN" "2024-01-01 00:00:03" "b";
   rec_of "WARN" "2024-01-01 00:00:07" "d"] /\
  _get_output_record strptime_Ymd_HMS file_ac_notjson file_bd =
  (records_abc, Raised not_json_error) /\
  sorted_by_timestamp strptime_Ymd_HMS
    (fst (_get_output_record strptime_Ymd_HMS file_ac_notjson file_bd)) = true.
Proof.
  refine (conj eq_refl (conj eq_refl (conj eq_refl _))).
  exact (X6_partial_output_sorted strptime_Ymd_HMS file_ac_notjson file_bd
           eq_refl eq_refl).
Defined.

Lemma X7_unparsable_only_after_exhaustion_witness :
  emitted_from SideA
    [(SideA, rec_of "INFO" "2024-01-01 00:00:01" "a");
     (SideB, rec_of "WARN" "2024-01-01 00:00:03" "b")] =
  readable_records file_a1 /\
  emitted_from SideA [] = [].
Proof.
  exact (X7_unparsable_only_after_exhaustion strptime_Ymd_HMS file_a1
           file_b_badts
           [(SideA, rec_of "INFO" "2024-01-01 00:00:01" "a");
            (SideB, rec_of "WARN" "2024-01-01 00:00:03" "b")] []
           SideB (rec_of "WARN" "yesterday" "late") ValueError
           eq_refl eq_refl).
Defined.

Lemma X8_earlier_log_first_witness :
  _get_output_record strptime_Ymd_HMS file_a1 file_b_badts =
  ([rec_of "INFO" "2024-01-01 00:00:01" "a";
    rec_of "WARN" "2024-01-01 00:00:03" "b";
    rec_of "WARN" "yesterday" "late"], Done).
Proof.
  apply (X8_earlier_log_first strptime_Ymd_HMS file_a1 file_b_badts
           (rec_of "INFO" "2024-01-01 00:00:01" "a")
           (rec_of "WARN" "2024-01-01 00:00:03" "b") []
           [rec_of "WARN" "yesterday" "late"]).
  - reflexivity.
  - reflexivity.
  - intros a [<-|[]]. reflexivity.
Defined.

Lemma X9_not_later_log_first_witness :
  _get_output_record strptime_Ymd_HMS file_tie_a file_tie_b =
  ([rec_tie_b; rec_tie_a], Done).
Proof.
  apply (X9_not_later_log_first strptime_Ymd_HMS file_tie_a file_tie_b
           rec_tie_a rec_tie_b [] []).
  - reflexivity.
  - reflexivity.
  - intros b [<-|[]]. reflexivity.
Defined.

Lemma X10_argument_order_only_for_ties_witness :
  fst (_get_output_record strptime_Ymd_HMS file_ac file_b) =
  fst (_get_output_record strptime_Ymd_HMS file_b file_ac).
Proof.
  apply (X10_argument_order_only_for_ties strptime_Ymd_HMS file_ac file_b
           records_ac records_b).
  - reflexivity.
  - reflexivity.
  - intros a b [<-|[<-|[]]] [<-|[]]; reflexivity.
Defined.

Lemma X13_output_replaced_before_validation_witness :
  exists e pre,
    InvalidInputError e /\
    main strptime_Ymd_HMS (mkArgs file_missing file_b true true) EmptyString =
    (pre ++ [Rmtree; Mkdir; OpenOutput; CloseOutput], Aborted e) /\
    written_lines
      (fst (main strptime_Ymd_HMS (mkArgs file_missing file_b true true)
              EmptyString)) = [].
Proof.
  apply (X13_output_replaced_before_validation strptime_Ymd_HMS
           (mkArgs file_missing file_b true true) EmptyString).
  - reflexivity.
  - left. reflexivity.
  - reflexivity.
Defined.
